(** * Choose-your-own-adventure backend: a shallow embedding

    The development follows the layout of the backend:

    - [Py]            Python values, exceptions and dictionaries;
    - [core_models]   the pydantic classes of [core/models.py];
    - [orm]           declarative tables, mapped instances, attribute access;
    - [models_story]  the tables of [models/story.py];
    - [models_job]    the job table the routers write to;
    - [database]      the relational store behind a session;
    - [routers_job]   [routers/job.py];
    - [routers_story] [routers/story.py];
    - [expander]      the tree expander of the specification;
    - [samples]       concrete stores, nodes and generators.

    Definitions come first, the theorems about them follow. *)

From Stdlib Require Import List String ZArith Bool Lia.
Import ListNotations.
Local Open Scope string_scope.
Local Open Scope Z_scope.

(* ===================================================================== *)
(** ** Python values, exceptions, dictionaries *)
(* ===================================================================== *)

Module Py.

(** A Python value as it comes out of [json.loads], out of a JSON column,
    or out of a scalar column: [None], a bool, an int, a str, a list, or a
    dict with string keys in insertion order.  Timestamps are ints. *)
Unset Elimination Schemes.
Inductive Value : Type :=
| VNone
| VBool (b : bool)
| VInt (n : Z)
| VStr (s : string)
| VList (xs : list Value)
| VDict (kv : list (string * Value)).
Set Elimination Schemes.

(** Structural equality of values. *)
Fixpoint Value_eqb (a b : Value) {struct a} : bool :=
  match a, b with
  | VNone, VNone => true
  | VBool x, VBool y => Bool.eqb x y
  | VInt x, VInt y => Z.eqb x y
  | VStr x, VStr y => String.eqb x y
  | VList xs, VList ys =>
      (fix go (l : list Value) (r : list Value) {struct l} : bool :=
         match l, r with
         | [], [] => true
         | x :: l', y :: r' => Value_eqb x y && go l' r'
         | _, _ => false
         end) xs ys
  | VDict xs, VDict ys =>
      (fix go (l : list (string * Value)) (r : list (string * Value))
           {struct l} : bool :=
         match l, r with
         | [], [] => true
         | (k, x) :: l', (k', y) :: r' =>
             String.eqb k k' && Value_eqb x y && go l' r'
         | _, _ => false
         end) xs ys
  | _, _ => false
  end.

(** Python truthiness, as used by [if not x] and by [if x] filters. *)
Definition truthy (v : Value) : bool :=
  match v with
  | VNone => false
  | VBool b => b
  | VInt n => negb (Z.eqb n 0)
  | VStr s => negb (String.eqb s "")
  | VList xs => match xs with [] => false | _ => true end
  | VDict kv => match kv with [] => false | _ => true end
  end.

(** The exceptions the modelled code raises or meets. *)
Inductive Exn : Type :=
| HTTPException (status_code : Z) (detail : string)
| AttributeError (cls attr : string)
| KeyError (key : Value)
| ValidationError
| IntegrityError (table column : string)
| OverflowError.

Inductive result (A : Type) : Type :=
| Ok (a : A)
| Raise (e : Exn).
Arguments Ok {A} a.
Arguments Raise {A} e.

Definition bind {A B : Type} (r : result A) (k : A -> result B) : result B :=
  match r with
  | Ok a => k a
  | Raise e => Raise e
  end.

Fixpoint mapM {A B : Type} (f : A -> result B) (l : list A)
  : result (list B) :=
  match l with
  | [] => Ok []
  | x :: l' =>
      bind (f x) (fun y => bind (mapM f l') (fun ys => Ok (y :: ys)))
  end.

(** A dict with string keys: lookup, and [d[k] = v], which overwrites the
    entry in place or appends a new one (insertion order is kept). *)
Fixpoint dict_get (k : string) (d : list (string * Value)) : option Value :=
  match d with
  | [] => None
  | (k', v) :: d' => if String.eqb k k' then Some v else dict_get k d'
  end.

Fixpoint dict_set (k : string) (v : Value) (d : list (string * Value))
  : list (string * Value) :=
  match d with
  | [] => [(k, v)]
  | (k', v') :: d' =>
      if String.eqb k k' then (k, v) :: d' else (k', v') :: dict_set k v d'
  end.

(** A dict keyed by values (node identities), same discipline. *)
Fixpoint vdict_get {A : Type} (k : Value) (d : list (Value * A)) : option A :=
  match d with
  | [] => None
  | (k', v) :: d' => if Value_eqb k k' then Some v else vdict_get k d'
  end.

Fixpoint vdict_set {A : Type} (k : Value) (v : A) (d : list (Value * A))
  : list (Value * A) :=
  match d with
  | [] => [(k, v)]
  | (k', v') :: d' =>
      if Value_eqb k k' then (k, v) :: d' else (k', v') :: vdict_set k v d'
  end.

End Py.
Import Py.

Declare Scope py_scope.
Delimit Scope py_scope with py.
Notation "x <- e ;; k" := (bind e (fun x => k))
  (at level 61, e at next level, right associativity) : py_scope.
Local Open Scope py_scope.

(* ===================================================================== *)
(** ** core/models.py *)
(* ===================================================================== *)

Module core_models.

(** How pydantic converts a scalar input to a declared field type is the
    library's business and differs between its versions; so does whether
    an [Optional[...]] field declared without a default may be left out.
    Both are parameters of validation.  [lawful] is all the theorems
    assume: an input that already has the declared type is taken as is. *)
Record Pydantic : Type := {
  to_str : Value -> option string;
  to_bool : Value -> option bool;
  to_dict : Value -> option (list (string * Value));
  optional_is_required : bool
}.

Definition lawful (P : Pydantic) : Prop :=
  (forall s, to_str P (VStr s) = Some s) /\
  (forall b, to_bool P (VBool b) = Some b) /\
  (forall d, to_dict P (VDict d) = Some d).

(** Conversion-free validation. *)
Definition strict : Pydantic := {|
  to_str := fun v => match v with VStr s => Some s | _ => None end;
  to_bool := fun v => match v with VBool b => Some b | _ => None end;
  to_dict := fun v => match v with VDict d => Some d | _ => None end;
  optional_is_required := true
|}.

(** [class StoryOptionLLM]: [text: str], [nextNode: Dict[str, Any]]. *)
Record StoryOptionLLM : Type := {
  text : string;
  nextNode : list (string * Value)
}.

(** [class StoryNodeLLM]: [content: str], [isEnding: bool],
    [isWinningEnding: bool], [options: Optional[List[StoryOptionLLM]]]. *)
Record StoryNodeLLM : Type := {
  content : string;
  isEnding : bool;
  isWinningEnding : bool;
  options : option (list StoryOptionLLM)
}.

(** [class StoryLLMResponse]: [title: str], [rootNode: StoryNodeLLM]. *)
Record StoryLLMResponse : Type := {
  title : string;
  rootNode : StoryNodeLLM
}.

Section validation.
Variable P : Pydantic.

(** A required field: the key must be there and its value must convert. *)
Definition required {A : Type} (conv : Value -> option A)
    (kv : list (string * Value)) (field : string) : result A :=
  match dict_get field kv with
  | Some v =>
      match conv v with
      | Some a => Ok a
      | None => Raise ValidationError
      end
  | None => Raise ValidationError
  end.

Definition StoryOptionLLM_validate (v : Value) : result StoryOptionLLM :=
  match v with
  | VDict kv =>
      t <- required (to_str P) kv "text" ;;
      n <- required (to_dict P) kv "nextNode" ;;
      Ok {| text := t; nextNode := n |}
  | _ => Raise ValidationError
  end.

(** [Optional[List[StoryOptionLLM]]]: [None], or a list whose every item
    validates as an option. *)
Definition validate_options (kv : list (string * Value))
  : result (option (list StoryOptionLLM)) :=
  match dict_get "options" kv with
  | None =>
      if optional_is_required P
      then Raise ValidationError
      else Ok None
  | Some VNone => Ok None
  | Some (VList xs) =>
      os <- mapM StoryOptionLLM_validate xs ;; Ok (Some os)
  | Some _ => Raise ValidationError
  end.

Definition StoryNodeLLM_validate (v : Value) : result StoryNodeLLM :=
  match v with
  | VDict kv =>
      c <- required (to_str P) kv "content" ;;
      e <- required (to_bool P) kv "isEnding" ;;
      w <- required (to_bool P) kv "isWinningEnding" ;;
      os <- validate_options kv ;;
      Ok {| content := c; isEnding := e; isWinningEnding := w;
            options := os |}
  | _ => Raise ValidationError
  end.

Definition StoryLLMResponse_validate (v : Value) : result StoryLLMResponse :=
  match v with
  | VDict kv =>
      t <- required (to_str P) kv "title" ;;
      r <- match dict_get "rootNode" kv with
           | Some n => StoryNodeLLM_validate n
           | None => Raise ValidationError
           end ;;
      Ok {| title := t; rootNode := r |}
  | _ => Raise ValidationError
  end.

End validation.

(** The dict a model instance stands for (pydantic's [model_dump]). *)
Definition StoryOptionLLM_dump (o : StoryOptionLLM) : Value :=
  VDict [("text", VStr (text o)); ("nextNode", VDict (nextNode o))].

Definition StoryNodeLLM_dump (n : StoryNodeLLM) : Value :=
  VDict [("content", VStr (content n));
         ("isEnding", VBool (isEnding n));
         ("isWinningEnding", VBool (isWinningEnding n));
         ("options", match options n with
                     | None => VNone
                     | Some os => VList (map StoryOptionLLM_dump os)
                     end)].

Definition StoryLLMResponse_dump (r : StoryLLMResponse) : Value :=
  VDict [("title", VStr (title r));
         ("rootNode", StoryNodeLLM_dump (rootNode r))].

(** *** What the class declarations ask of an input

    The declarations read as a relation between an input and the model
    instance it gives.  An option is a dict with a [text] that converts
    to a string and a [nextNode] that converts to a dict; nothing more is
    asked of the next node. *)
Definition option_shape (P : Pydantic) (v : Value) (o : StoryOptionLLM)
  : Prop :=
  exists kv t n,
    v = VDict kv /\
    dict_get "text" kv = Some t /\ to_str P t = Some (text o) /\
    dict_get "nextNode" kv = Some n /\ to_dict P n = Some (nextNode o).

(** [options] is null (or missing, where a missing optional field is
    allowed) or a list of options, item by item and in order. *)
Definition options_shape (P : Pydantic) (kv : list (string * Value))
    (os : option (list StoryOptionLLM)) : Prop :=
  match os with
  | None =>
      dict_get "options" kv = Some VNone \/
      (dict_get "options" kv = None /\ optional_is_required P = false)
  | Some os =>
      exists xs,
        dict_get "options" kv = Some (VList xs) /\
        Forall2 (option_shape P) xs os
  end.

Definition node_shape (P : Pydantic) (v : Value) (n : StoryNodeLLM) : Prop :=
  exists kv c e w,
    v = VDict kv /\
    dict_get "content" kv = Some c /\ to_str P c = Some (content n) /\
    dict_get "isEnding" kv = Some e /\ to_bool P e = Some (isEnding n) /\
    dict_get "isWinningEnding" kv = Some w /\
    to_bool P w = Some (isWinningEnding n) /\
    options_shape P kv (options n).

Definition response_shape (P : Pydantic) (v : Value) (r : StoryLLMResponse)
  : Prop :=
  exists kv t n,
    v = VDict kv /\
    dict_get "title" kv = Some t /\ to_str P t = Some (title r) /\
    dict_get "rootNode" kv = Some n /\ node_shape P n (rootNode r).

End core_models.

(* ===================================================================== *)
(** ** Declarative tables and mapped instances *)
(* ===================================================================== *)

Module orm.

Inductive ColType : Type := Integer | String_ | DateTime | Boolean | JSON.

(** One [Column(...)] of a declarative class.  [foreign_key] is the target
    of a [ForeignKey(...)], [nullable_kw] the [nullable=] keyword when it
    is written, [default] the value of the Python-side [default=]
    ([default=list] gives the empty list), [server_default] whether the
    column has a [server_default=], a value the server fills in. *)
Record Column : Type := {
  name : string;
  coltype : ColType;
  primary_key : bool;
  foreign_key : option string;
  nullable_kw : option bool;
  default : option Value;
  server_default : bool
}.

(** A column is nullable unless it says otherwise or is a primary key. *)
Definition nullable (c : Column) : bool :=
  match nullable_kw c with
  | Some b => b
  | None => negb (primary_key c)
  end.

Record Table : Type := {
  classname : string;
  tablename : string;
  columns : list Column
}.

(** A mapped instance: its column attributes by name.  An attribute that
    was never given a value reads as [None]. *)
Definition Row : Type := list (string * Value).

Definition declares (t : Table) (attr : string) : bool :=
  existsb (fun c => String.eqb attr (name c)) (columns t).

Definition column_value (o : Row) (attr : string) : Value :=
  match dict_get attr o with
  | Some v => v
  | None => VNone
  end.

(** [o.attr] on an instance of class [t]: the class declares the column
    attributes; any other name is an [AttributeError].  (The relationship
    attributes [Story.nodes] and [StoryNode.story] are never read by the
    routers and are not modelled.) *)
Definition getattr (t : Table) (o : Row) (attr : string) : result Value :=
  if declares t attr
  then Ok (column_value o attr)
  else Raise (AttributeError (classname t) attr).

(** [o.attr = v]. *)
Definition setattr (o : Row) (attr : string) (v : Value) : Row :=
  dict_set attr v o.

(** Whether the INSERT leaves a column out: its attribute was never set,
    or it is [None] and the column's type does not store [None] itself (a
    JSON column does, as JSON null). *)
Definition left_out (c : Column) (o : Row) : bool :=
  match dict_get (name c) o with
  | None => true
  | Some VNone => match coltype c with JSON => false | _ => true end
  | Some _ => false
  end.

(** Python-side defaults fill the columns the INSERT leaves out. *)
Definition apply_defaults (t : Table) (o : Row) : Row :=
  fold_left
    (fun acc c =>
       match default c with
       | Some d => if left_out c acc then dict_set (name c) d acc else acc
       | None => acc
       end)
    (columns t) o.

Definition is_None (v : Value) : bool :=
  match v with VNone => true | _ => false end.

(** The first NOT NULL column that would receive NULL, if any. *)
Definition null_violation (t : Table) (o : Row) : option Column :=
  find (fun c => negb (nullable c) && is_None (column_value o (name c)))
       (columns t).

(** The integer primary keys in use, and the next one the store hands out. *)
Definition pk_of (o : Row) : Value := column_value o "id".

Definition next_pk (rows : list Row) : Z :=
  1 + fold_right
        (fun o m => match pk_of o with VInt k => Z.max k m | _ => m end)
        0 rows.

(** A key the instance brings is kept, else the store assigns the next. *)
Definition keyed (o : Row) (rows : list Row) : Row :=
  match pk_of o with
  | VNone => setattr o "id" (VInt (next_pk rows))
  | _ => o
  end.

(** Two instances that differ in one attribute only, [k], which holds [v]
    in the second. *)
Definition differ_at (k : string) (v : Value) (o o' : Row) : Prop :=
  forall a, dict_get a o' = if String.eqb a k then Some v else dict_get a o.

(** Whether a row of the table already has the key. *)
Definition key_taken (k : Value) (rows : list Row) : bool :=
  existsb (fun r => Value_eqb (pk_of r) k) rows.

(** The table's part of [db.add(o); db.flush()], for a table whose key is
    [id]: defaults are applied; a key the instance brings is kept, else
    the store assigns the next one; NOT NULL is enforced, then the
    uniqueness of the key.  What comes before and after is not part of
    it: the driver refusing a value it cannot bind (an integer outside
    the store's range, a value of another type), the value a server-side
    default fills in, and the check that a foreign key points to a row. *)
Definition insert (t : Table) (o : Row) (rows : list Row)
  : result (Row * list Row) :=
  let o' := keyed (apply_defaults t o) rows in
  match null_violation t o' with
  | Some c => Raise (IntegrityError (tablename t) (name c))
  | None =>
      if key_taken (pk_of o') rows
      then Raise (IntegrityError (tablename t) "id")
      else Ok (o', (rows ++ [o'])%list)
  end.

(** The Python-side default the class declares for an attribute. *)
Definition column_default (t : Table) (attr : string) : option Value :=
  match find (fun c => String.eqb attr (name c)) (columns t) with
  | Some c => default c
  | None => None
  end.

End orm.
Import orm.

(* ===================================================================== *)
(** ** models/story.py *)
(* ===================================================================== *)

Module models_story.

(** [class Story(Base)]; [created_at] has [server_default=func.now()]. *)
Definition Story : Table := {|
  classname := "Story";
  tablename := "stories";
  columns := [
    {| name := "id"; coltype := Integer; primary_key := true;
       foreign_key := None; nullable_kw := None; default := None;
       server_default := false |};
    {| name := "title"; coltype := String_; primary_key := false;
       foreign_key := None; nullable_kw := None; default := None;
       server_default := false |};
    {| name := "session_id"; coltype := String_; primary_key := false;
       foreign_key := None; nullable_kw := None; default := None;
       server_default := false |};
    {| name := "created_at"; coltype := DateTime; primary_key := false;
       foreign_key := None; nullable_kw := None; default := None;
       server_default := true |} ]
|}.

(** [class StoryNode(Base)]. *)
Definition StoryNode : Table := {|
  classname := "StoryNode";
  tablename := "story_nodes";
  columns := [
    {| name := "id"; coltype := Integer; primary_key := true;
       foreign_key := None; nullable_kw := None; default := None;
       server_default := false |};
    {| name := "story_id"; coltype := Integer; primary_key := false;
       foreign_key := Some "stories.id"; nullable_kw := Some false;
       default := None; server_default := false |};
    {| name := "content"; coltype := JSON; primary_key := false;
       foreign_key := None; nullable_kw := Some true; default := None;
       server_default := false |};
    {| name := "is_root"; coltype := Boolean; primary_key := false;
       foreign_key := None; nullable_kw := None;
       default := Some (VBool false); server_default := false |};
    {| name := "is_ending"; coltype := Boolean; primary_key := false;
       foreign_key := None; nullable_kw := None;
       default := Some (VBool false); server_default := false |};
    {| name := "is_winning"; coltype := Boolean; primary_key := false;
       foreign_key := None; nullable_kw := None;
       default := Some (VBool false); server_default := false |};
    {| name := "options"; coltype := JSON; primary_key := false;
       foreign_key := None; nullable_kw := None;
       default := Some (VList []); server_default := false |} ]
|}.

End models_story.
Import models_story.

(* ===================================================================== *)
(** ** models/job.py *)
(* ===================================================================== *)

Module models_job.

(** Modelled from the spec: [models/job.py] is not among the sources.  The
    job record has an identity, an owning session, the requested theme, a
    status, the resulting story reference, an error detail and a
    completion timestamp; the attribute names are the ones the routers
    use. *)
Definition StoryJob : Table := {|
  classname := "StoryJob";
  tablename := "story_jobs";
  columns := [
    {| name := "job_id"; coltype := String_; primary_key := false;
       foreign_key := None; nullable_kw := None; default := None;
       server_default := false |};
    {| name := "session_id"; coltype := String_; primary_key := false;
       foreign_key := None; nullable_kw := None; default := None;
       server_default := false |};
    {| name := "theme"; coltype := String_; primary_key := false;
       foreign_key := None; nullable_kw := None; default := None;
       server_default := false |};
    {| name := "status"; coltype := String_; primary_key := false;
       foreign_key := None; nullable_kw := None; default := None;
       server_default := false |};
    {| name := "story_id"; coltype := Integer; primary_key := false;
       foreign_key := None; nullable_kw := None; default := None;
       server_default := false |};
    {| name := "error"; coltype := String_; primary_key := false;
       foreign_key := None; nullable_kw := None; default := None;
       server_default := false |};
    {| name := "completed_at"; coltype := DateTime; primary_key := false;
       foreign_key := None; nullable_kw := None; default := None;
       server_default := false |} ]
|}.

End models_job.
Import models_job.

(* ===================================================================== *)
(** ** The store behind a session (db/database.py) *)
(* ===================================================================== *)

Module database.

Record DB : Type := {
  stories : list Row;
  story_nodes : list Row;
  story_jobs : list Row
}.

(** [Column == value] inside [filter(...)]: SQL equality, never true of
    NULL. *)
Definition sql_eq (a b : Value) : bool :=
  match a, b with
  | VNone, _ => false
  | _, VNone => false
  | _, _ => Value_eqb a b
  end.

(** The integers the store can hold: 64-bit, signed. *)
Definition int64 (k : Z) : bool := (- 2 ^ 63 <=? k) && (k <? 2 ^ 63).

(** [query(T).filter(T.col == v)] over the rows of [T]. *)
Definition filter_eq (col : string) (v : Value) (rows : list Row)
  : list Row :=
  filter (fun o => sql_eq (column_value o col) v) rows.

(** [.first()]: the first row or [None]. *)
Definition first (rows : list Row) : option Row :=
  match rows with
  | [] => None
  | o :: _ => Some o
  end.

(** A request handler runs against the store and hands it back. *)
Definition M (A : Type) : Type := DB -> result A * DB.

Definition ret {A : Type} (a : A) : M A := fun db => (Ok a, db).

Definition raise {A : Type} (e : Exn) : M A := fun db => (Raise e, db).

Definition lift {A : Type} (r : result A) : M A := fun db => (r, db).

Definition query {A : Type} (f : DB -> A) : M A := fun db => (Ok (f db), db).

Definition mbind {A B : Type} (m : M A) (k : A -> M B) : M B :=
  fun db =>
    match m db with
    | (Ok a, db') => k a db'
    | (Raise e, db') => (Raise e, db')
    end.

(** A handler is read-only when it hands the store back as it got it. *)
Definition read_only {A : Type} (m : M A) : Prop :=
  forall db, snd (m db) = db.

End database.
Import database.

Notation "x <~ e ;; k" := (mbind e (fun x => k))
  (at level 61, e at next level, right associativity) : py_scope.

(* ===================================================================== *)
(** ** routers/job.py *)
(* ===================================================================== *)

Module routers_job.

Definition get_job_status (job_id : string) : M Row :=
  job <~ query (fun db =>
           first (filter_eq "job_id" (VStr job_id) (story_jobs db))) ;;
  match job with
  | None => raise (HTTPException 404 "Job not found")
  | Some job => ret job
  end.

End routers_job.

(* ===================================================================== *)
(** ** routers/story.py *)
(* ===================================================================== *)

Module routers_story.

(** Modelled from the spec: [schemas/story.py] is not among the sources.
    A response object keeps the keyword arguments it is built from; the
    node view is built from [id], [content], [is_ending],
    [is_winning_ending] and [options]. *)
Record CompleteStoryNodeResponse : Type := {
  node_id : Value;
  node_content : Value;
  node_is_ending : Value;
  node_is_winning_ending : Value;
  node_options : Value
}.

(** Modelled from the spec: the story view [{id, title, session_id,
    created_at, root_node, all_nodes}] of the absent [schemas/story.py]. *)
Record CompleteStoryResponse : Type := {
  story_id : Value;
  story_title : Value;
  story_session_id : Value;
  story_created_at : Value;
  root_node : CompleteStoryNodeResponse;
  all_nodes : list (Value * CompleteStoryNodeResponse)
}.

(** The [CompleteStoryNodeResponse(...)] call of the loop body; keyword
    arguments are evaluated left to right. *)
Definition node_response (node : Row) : result CompleteStoryNodeResponse :=
  i <- getattr StoryNode node "id" ;;
  c <- getattr StoryNode node "content" ;;
  e <- getattr StoryNode node "is_ending" ;;
  w <- getattr StoryNode node "is_winning_ending" ;;
  o <- getattr StoryNode node "options" ;;
  Ok {| node_id := i; node_content := c; node_is_ending := e;
        node_is_winning_ending := w; node_options := o |}.

(** [for node in nodes: ...; node_dict[node.id] = node_response]. *)
Fixpoint build_node_dict (nodes : list Row)
    (node_dict : list (Value * CompleteStoryNodeResponse))
  : result (list (Value * CompleteStoryNodeResponse)) :=
  match nodes with
  | [] => Ok node_dict
  | node :: rest =>
      node_response <- node_response node ;;
      k <- getattr StoryNode node "id" ;;
      build_node_dict rest (vdict_set k node_response node_dict)
  end.

(** [next((node for node in nodes if node.is_root), None)]. *)
Fixpoint next_root (nodes : list Row) : result (option Row) :=
  match nodes with
  | [] => Ok None
  | node :: rest =>
      r <- getattr StoryNode node "is_root" ;;
      if truthy r then Ok (Some node) else next_root rest
  end.

(** [node_dict[k]]. *)
Definition getitem {A : Type} (d : list (Value * A)) (k : Value) : result A :=
  match vdict_get k d with
  | Some v => Ok v
  | None => Raise (KeyError k)
  end.

Definition RootNotFound : Exn :=
  HTTPException 500 "Story root node not found".

Definition build_complete_story_tree (story : Row)
  : M CompleteStoryResponse :=
  sid <~ lift (getattr Story story "id") ;;
  nodes <~ query (fun db => filter_eq "story_id" sid (story_nodes db)) ;;
  node_dict <~ lift (build_node_dict nodes []) ;;
  root <~ lift (next_root nodes) ;;
  match root with
  | None => raise RootNotFound
  | Some root =>
      i <~ lift (getattr Story story "id") ;;
      t <~ lift (getattr Story story "title") ;;
      s <~ lift (getattr Story story "session_id") ;;
      c <~ lift (getattr Story story "created_at") ;;
      rid <~ lift (getattr StoryNode root "id") ;;
      r <~ lift (getitem node_dict rid) ;;
      ret {| story_id := i; story_title := t; story_session_id := s;
             story_created_at := c; root_node := r;
             all_nodes := node_dict |}
  end.

(** [story_id: int] is any Python integer.  One the store cannot hold
    cannot be bound to the query of the first line: the driver raises
    [OverflowError] and the request ends there. *)
Definition get_complete_story (story_id : Z) : M CompleteStoryResponse :=
  if int64 story_id then
    story <~ query (fun db =>
               first (filter_eq "id" (VInt story_id) (stories db))) ;;
    match story with
    | None => raise (HTTPException 404 "Story not found")
    | Some story => build_complete_story_tree story
    end
  else raise OverflowError.

(** *** The background task *)

(** An exception as the task sees it: whether [except Exception] catches
    it, and what [str(e)] gives. *)
Record PyExc : Type := {
  is_Exception : bool;
  exc_str : string
}.

(** [StoryGenerator.generate_story(db, session_id, theme)] belongs to
    [core/story_generator.py], which is not among the sources: the
    generator is a parameter.  It works on the session it is given and
    either returns the persisted story, or raises with the session still
    usable, or raises out of a failed flush.  A failed flush rolls the
    session's transaction back and leaves the session unusable until
    [db.rollback()] is called; [db'] is then the store after that
    roll-back. *)
Inductive GenOutcome : Type :=
| GenReturn (db' : DB) (story : Row)
| GenRaise (db' : DB) (e : PyExc)
| GenFlushError (db' : DB) (e : PyExc).

(** The store together with a log of the generator invocations. *)
Record World : Type := {
  store : DB;
  generator_calls : list (string * string)
}.

(** How a run of the task ends: it returns, or the generator's exception
    goes on to the caller, or the [db.commit()] of the [except] handler
    raises in its turn ([PendingRollbackError]) and that goes on to the
    caller. *)
Inductive TaskOutcome : Type :=
| Returned
| Propagated (e : PyExc)
| HandlerFailed.

Fixpoint update_first (p : Row -> bool) (new : Row) (rows : list Row)
  : list Row :=
  match rows with
  | [] => []
  | o :: rest =>
      if p o then new :: rest else o :: update_first p new rest
  end.

(** [db.commit()] with [job] dirty: the row the job was loaded from, the
    first one with its [job_id], takes the job's attributes. *)
Definition commit_job (job_id : string) (job : Row) (db : DB) : DB :=
  {| stories := stories db;
     story_nodes := story_nodes db;
     story_jobs :=
       update_first
         (fun o => sql_eq (column_value o "job_id") (VStr job_id))
         job (story_jobs db) |}.

Section task.

Variable generate_story : DB -> string -> string -> GenOutcome.
(** What [datetime.now()] returns when the task asks. *)
Variable now : Z.

(** The body of [except Exception as e] on a session that is still
    usable: the three assignments and a [db.commit()] that goes through. *)
Definition on_exception (job_id : string) (job : Row) (msg : string)
    (db : DB) : DB :=
  let job := setattr job "status" (VStr "failed") in
  let job := setattr job "completed_at" (VInt now) in
  let job := setattr job "error" (VStr msg) in
  commit_job job_id job db.

(** [story.id] reads the declared column [id] of the returned [Story],
    an access that cannot fail.  After a failed flush the handler is
    entered, since the flush error is an [Exception], but it calls no
    [db.rollback()]: its [db.commit()] raises, the three assignments are
    lost with the session, and the error leaves the task. *)
Definition generate_story_task (job_id theme session_id : string)
    (w : World) : TaskOutcome * World :=
  let db := store w in
  match first (filter_eq "job_id" (VStr job_id) (story_jobs db)) with
  | None => (Returned, w)
  | Some job =>
      let job := setattr job "status" (VStr "processing") in
      let db := commit_job job_id job db in
      let calls := (generator_calls w ++ [(session_id, theme)])%list in
      match generate_story db session_id theme with
      | GenReturn db story =>
          let job := setattr job "story_id" (column_value story "id") in
          let job := setattr job "status" (VStr "completed") in
          let job := setattr job "completed_at" (VInt now) in
          (Returned,
           {| store := commit_job job_id job db; generator_calls := calls |})
      | GenRaise db e =>
          if is_Exception e
          then (Returned,
                {| store := on_exception job_id job (exc_str e) db;
                   generator_calls := calls |})
          else (Propagated e, {| store := db; generator_calls := calls |})
      | GenFlushError db e =>
          (HandlerFailed, {| store := db; generator_calls := calls |})
      end
  end.

End task.

(** The store a generator outcome leaves behind. *)
Definition outcome_db (o : GenOutcome) : DB :=
  match o with
  | GenReturn db _ => db
  | GenRaise db _ => db
  | GenFlushError db _ => db
  end.

(** *** Creating a story *)

(** [get_session_id]: the cookie when it is there and not empty, else a
    new identifier; [uuid] is what [str(uuid.uuid4())] gives. *)
Definition get_session_id (session_id : option string) (uuid : string)
  : string :=
  match session_id with
  | Some s => if String.eqb s "" then uuid else s
  | None => uuid
  end.

(** A [response.set_cookie(key=..., value=..., httponly=...)]. *)
Record Cookie : Type := {
  cookie_key : string;
  cookie_value : string;
  cookie_httponly : bool
}.

(** The keyword arguments of a scheduled [generate_story_task]. *)
Record TaskArgs : Type := {
  task_job_id : string;
  task_theme : string;
  task_session_id : string
}.

(** What a [create_story] request works on: the store, the cookies of the
    response, and the background tasks scheduled so far. *)
Record Request : Type := {
  request_db : DB;
  response_cookies : list Cookie;
  background_tasks : list TaskArgs
}.

(** [create_story]: [uuid] is what [str(uuid.uuid4())] gives for the job.
    [db.add(job); db.commit()] appends the job to its table; what
    [StoryJob] adds of its own on insertion belongs to the absent
    [models/job.py]. *)
Definition create_story (theme session_id uuid : string) (rq : Request)
  : Row * Request :=
  let cookies :=
    (response_cookies rq ++
     [{| cookie_key := "session_id"; cookie_value := session_id;
         cookie_httponly := true |}])%list in
  let job_id := uuid in
  let job : Row :=
    [("job_id", VStr job_id); ("session_id", VStr session_id);
     ("theme", VStr theme); ("status", VStr "pending")] in
  let db := request_db rq in
  let db :=
    {| stories := stories db;
       story_nodes := story_nodes db;
       story_jobs := (story_jobs db ++ [job])%list |} in
  let tasks :=
    (background_tasks rq ++
     [{| task_job_id := job_id; task_theme := theme;
         task_session_id := session_id |}])%list in
  (job,
   {| request_db := db; response_cookies := cookies;
      background_tasks := tasks |}).

(** The route with its [Depends(get_session_id)] resolved: the session
    identifier is computed from the request cookie before the handler
    runs. *)
Definition post_create (cookie : option string)
    (uuid_session uuid_job theme : string) (rq : Request) : Row * Request :=
  create_story theme (get_session_id cookie uuid_session) uuid_job rq.

(** A scheduled task is run with the keyword arguments it was given. *)
Definition run_background_task
    (generate_story : DB -> string -> string -> GenOutcome) (now : Z)
    (a : TaskArgs) (w : World) : TaskOutcome * World :=
  generate_story_task generate_story now
    (task_job_id a) (task_theme a) (task_session_id a) w.

End routers_story.

(* ===================================================================== *)
(** ** The tree expander of the specification *)
(* ===================================================================== *)

Module expander.

(** Modelled from the spec: the schema tree of section 4.1, in which every
    option embeds a complete node.  ([core/story_generator.py], which
    walks it, is not among the sources.) *)
Unset Elimination Schemes.
Inductive SchemaNode : Type :=
| mkSchemaNode (content : string) (isEnding isWinningEnding : bool)
    (options : option (list (string * SchemaNode))).
Set Elimination Schemes.

(** Modelled from the spec: the node that [expand] creates, "options = an
    initially-empty ordered sequence", persisted under a fresh identity. *)
Definition new_node (id story_id : Z) (content : string)
    (is_root is_ending is_winning : bool) : Row :=
  [("id", VInt id); ("story_id", VInt story_id);
   ("content", VStr content); ("is_root", VBool is_root);
   ("is_ending", VBool is_ending); ("is_winning", VBool is_winning);
   ("options", VList [])].

(** Modelled from the spec: the entry "{text: option.text, nextNode: child
    identity}" appended to the parent's option list. *)
Definition option_entry (text : string) (child : Z) : Value :=
  VDict [("text", VStr text); ("nextNode", VInt child)].

(** Modelled from the spec: "persist the updated option list onto the
    parent node". *)
Definition set_options (id : Z) (opts : Value) (rows : list Row)
  : list Row :=
  map (fun o => if Value_eqb (pk_of o) (VInt id)
                then setattr o "options" opts else o) rows.

(** Modelled from the spec: "for each option in order, recursively expand
    the option's nested next-node (is_root = false), then append {text,
    nextNode} to the parent's option list, in original order".  [rec] is
    the expansion of one child. *)
Definition expand_options (rec : SchemaNode -> list Row -> Z * list Row)
  : list (string * SchemaNode) -> list Row -> list Value * list Row :=
  fix each (os : list (string * SchemaNode)) (rows : list Row)
      {struct os} : list Value * list Row :=
    match os with
    | [] => ([], rows)
    | (text, child) :: rest =>
        let '(cid, rows) := rec child rows in
        let '(es, rows) := each rest rows in
        (option_entry text cid :: es, rows)
    end.

(** Modelled from the spec: operation [expand(store, story_id,
    schema_node, is_root)] of section 4.2, on the [story_nodes] table.
    The node is persisted first; if it is not an ending and has options,
    each option's node is expanded in order, and the collected entries
    are then written onto the parent.  An ending keeps no options. *)
Fixpoint expand (story_id : Z) (n : SchemaNode) (is_root : bool)
    (rows : list Row) {struct n} : Z * list Row :=
  match n with
  | mkSchemaNode content isEnding isWinningEnding options =>
      let id := next_pk rows in
      let rows :=
        (rows ++ [new_node id story_id content is_root isEnding
                    isWinningEnding])%list in
      match isEnding, options with
      | false, Some ((_ :: _) as os) =>
          let '(entries, rows) :=
            expand_options
              (fun child rows => expand story_id child false rows) os rows in
          (id, set_options id (VList entries) rows)
      | _, _ => (id, rows)
      end
  end.

(** The two sides of ending consistency, read off a stored node. *)
Definition is_ending (o : Row) : bool := truthy (column_value o "is_ending").

Definition options_empty (o : Row) : bool :=
  negb (truthy (column_value o "options")).

(** What one expansion adds to the table: the rows that were there stay
    as they are, every new row has a fresh key, and a new row that is an
    ending has no options. *)
Definition adds_well (rows rows' : list Row) : Prop :=
  exists added,
    rows' = (rows ++ added)%list /\
    (forall o, In o added ->
               exists k, pk_of o = VInt k /\ next_pk rows <= k) /\
    (forall o, In o added -> is_ending o = true -> options_empty o = true).

End expander.

(* ===================================================================== *)
(** ** Concrete inputs used by the examples below *)
(* ===================================================================== *)

Module samples.
Import core_models routers_story expander.

(** A service response whose only option leads to an empty dict. *)
Definition shallow_response : Value :=
  VDict [("title", VStr "T");
         ("rootNode",
          VDict [("content", VStr "C");
                 ("isEnding", VBool false);
                 ("isWinningEnding", VBool false);
                 ("options",
                  VList [VDict [("text", VStr "go");
                                ("nextNode", VDict [])]])])].

(** A node that is not an ending and offers one option. *)
Definition open_node : list (string * Value) :=
  [("content", VStr "C");
   ("isEnding", VBool false);
   ("isWinningEnding", VBool false);
   ("options",
    VList [VDict [("text", VStr "go"); ("nextNode", VDict [])]])].

(** An ending that still carries an option. *)
Definition ending_with_option : Value :=
  VDict (dict_set "isEnding" (VBool true) open_node).

Definition story1 : Row :=
  [("id", VInt 1); ("title", VStr "T"); ("session_id", VStr "s");
   ("created_at", VInt 0)].

(** A store holding [story1] and its single, root, ending node. *)
Definition db_one_node : DB := {|
  stories := [story1];
  story_nodes := [new_node 1 1 "C" true true true];
  story_jobs := []
|}.

(** A store in which [story1] has two nodes flagged as root. *)
Definition db_two_roots : DB := {|
  stories := [story1];
  story_nodes := [new_node 1 1 "A" true true true;
                  new_node 2 1 "B" true true false];
  story_jobs := []
|}.

(** A pending node that names its story and nothing else. *)
Definition node_without_content : Row := [("story_id", VInt 1)].

(** A schema node that is not an ending and has no option list. *)
Definition dead_end : SchemaNode := mkSchemaNode "C" false false None.

(** A root with two endings below it. *)
Definition one_branch : SchemaNode :=
  mkSchemaNode "R" false false
    (Some [("a", mkSchemaNode "A" true true None);
           ("b", mkSchemaNode "B" true false None)]).

Definition pending_job : Row :=
  [("job_id", VStr "j1"); ("session_id", VStr "s"); ("theme", VStr "t");
   ("status", VStr "pending")].

Definition db_one_job : DB := {|
  stories := [];
  story_nodes := [];
  story_jobs := [pending_job]
|}.

Definition world_one_job : World := {|
  store := db_one_job;
  generator_calls := []
|}.

(** A generator that persists a story without nodes and returns it. *)
Definition gen_ok (db : DB) (session_id theme : string) : GenOutcome :=
  let story : Row :=
    [("id", VInt (next_pk (stories db))); ("title", VStr theme);
     ("session_id", VStr session_id)] in
  GenReturn {| stories := (stories db ++ [story])%list;
               story_nodes := story_nodes db;
               story_jobs := story_jobs db |} story.

(** A generator that fails at once. *)
Definition gen_fail (db : DB) (session_id theme : string) : GenOutcome :=
  GenRaise db {| is_Exception := true; exc_str := "boom" |}.

(** A generator whose flush fails on a constraint of the store. *)
Definition gen_flush_fails (db : DB) (session_id theme : string)
  : GenOutcome :=
  GenFlushError db
    {| is_Exception := true; exc_str := "IntegrityError" |}.

(** A generator interrupted by something [except Exception] lets through. *)
Definition gen_interrupted (db : DB) (session_id theme : string)
  : GenOutcome :=
  GenRaise db {| is_Exception := false; exc_str := "KeyboardInterrupt" |}.

Definition second_job : Row :=
  [("job_id", VStr "j2"); ("session_id", VStr "s"); ("theme", VStr "u");
   ("status", VStr "completed")].

Definition db_two_jobs : DB := {|
  stories := [];
  story_nodes := [];
  story_jobs := [pending_job; second_job]
|}.

Definition world_two_jobs : World := {|
  store := db_two_jobs;
  generator_calls := []
|}.

Definition empty_request : Request := {|
  request_db := {| stories := []; story_nodes := []; story_jobs := [] |};
  response_cookies := [];
  background_tasks := []
|}.

Definition request_one_job : Request := {|
  request_db := db_one_job;
  response_cookies := [];
  background_tasks := []
|}.

End samples.

(* ===================================================================== *)
(** * Theorems *)
(* ===================================================================== *)

(** ** Dictionaries *)

Section dict_facts.

Lemma dict_get_set_eq k v d : dict_get k (dict_set k v d) = Some v.
Proof.
  induction d as [|[k' v'] d IH]; simpl.
  - now rewrite String.eqb_refl.
  - destruct (String.eqb k k') eqn:E; simpl.
    + now rewrite String.eqb_refl.
    + now rewrite E.
Qed.

Lemma dict_get_set_ne k k' v d :
  k <> k' -> dict_get k' (dict_set k v d) = dict_get k' d.
Proof.
  intros Hne. induction d as [|[k0 v0] d IH]; simpl.
  - destruct (String.eqb k' k) eqn:E; [|reflexivity].
    apply String.eqb_eq in E. congruence.
  - destruct (String.eqb k k0) eqn:E; simpl.
    + apply String.eqb_eq in E. subst k0.
      destruct (String.eqb k' k) eqn:E'; [|reflexivity].
      apply String.eqb_eq in E'. congruence.
    + destruct (String.eqb k' k0); [reflexivity | exact IH].
Qed.

Lemma column_value_setattr_eq o a v : column_value (setattr o a v) a = v.
Proof. unfold column_value, setattr. now rewrite dict_get_set_eq. Qed.

Lemma column_value_setattr_ne o a b v :
  a <> b -> column_value (setattr o a v) b = column_value o b.
Proof.
  intros H. unfold column_value, setattr. now rewrite dict_get_set_ne.
Qed.

End dict_facts.

Create Rewrite HintDb attrs.
#[local] Hint Rewrite column_value_setattr_eq : attrs.
#[local] Hint Rewrite column_value_setattr_ne using discriminate : attrs.

(** ** core/models.py: what validation checks *)

Section schema_facts.
Import core_models.
Variable P : Pydantic.
Hypothesis HP : lawful P.

Lemma required_str kv f s :
  dict_get f kv = Some (VStr s) -> required (to_str P) kv f = Ok s.
Proof.
  intros H. unfold required. rewrite H.
  destruct HP as (Hs & _). now rewrite Hs.
Qed.

Lemma required_bool kv f b :
  dict_get f kv = Some (VBool b) -> required (to_bool P) kv f = Ok b.
Proof.
  intros H. unfold required. rewrite H.
  destruct HP as (_ & Hb & _). now rewrite Hb.
Qed.

Lemma required_dict kv f d :
  dict_get f kv = Some (VDict d) -> required (to_dict P) kv f = Ok d.
Proof.
  intros H. unfold required. rewrite H.
  destruct HP as (_ & _ & Hd). now rewrite Hd.
Qed.

Lemma StoryOptionLLM_validate_dump o :
  StoryOptionLLM_validate P (StoryOptionLLM_dump o) = Ok o.
Proof.
  destruct o as [t n]. unfold StoryOptionLLM_validate, StoryOptionLLM_dump.
  rewrite (required_str _ _ t) by reflexivity.
  rewrite (required_dict _ _ n) by reflexivity.
  reflexivity.
Qed.

Lemma mapM_validate_dump os :
  mapM (StoryOptionLLM_validate P) (map StoryOptionLLM_dump os) = Ok os.
Proof.
  induction os as [|o os IH]; cbn [mapM map]; [reflexivity|].
  rewrite StoryOptionLLM_validate_dump, IH. reflexivity.
Qed.

Lemma StoryNodeLLM_validate_dump n :
  StoryNodeLLM_validate P (StoryNodeLLM_dump n) = Ok n.
Proof.
  destruct n as [c e w os]. unfold StoryNodeLLM_validate, StoryNodeLLM_dump.
  rewrite (required_str _ _ c) by reflexivity.
  rewrite (required_bool _ _ e) by reflexivity.
  rewrite (required_bool _ _ w) by reflexivity.
  unfold validate_options. simpl.
  destruct os as [os|]; simpl; [|reflexivity].
  now rewrite mapM_validate_dump.
Qed.

Lemma validate_outcome v :
  StoryLLMResponse_validate P v = Raise ValidationError \/
  exists r, StoryLLMResponse_validate P v = Ok r.
Proof.
  destruct (StoryLLMResponse_validate P v) as [r|e] eqn:E; [eauto|].
  left. f_equal.
  unfold StoryLLMResponse_validate in E.
  destruct v; try (inversion E; reflexivity).
  unfold required in E.
  destruct (dict_get "title" kv); [|inversion E; reflexivity].
  destruct (to_str P v); [|inversion E; reflexivity].
  simpl in E.
  destruct (dict_get "rootNode" kv) as [n|]; [|inversion E; reflexivity].
  destruct (StoryNodeLLM_validate P n) as [r|e'] eqn:En;
    [discriminate|].
  simpl in E. injection E as <-.
  unfold StoryNodeLLM_validate in En.
  destruct n; try (inversion En; reflexivity).
  unfold required in En.
  repeat match type of En with
  | context [match dict_get ?f ?d with _ => _ end] =>
      destruct (dict_get f d); [|inversion En; reflexivity]
  | context [match to_str P ?x with _ => _ end] =>
      destruct (to_str P x); [|inversion En; reflexivity]
  | context [match to_bool P ?x with _ => _ end] =>
      destruct (to_bool P x); [|inversion En; reflexivity]
  end.
  simpl in En.
  destruct (validate_options P kv0) as [os|e''] eqn:Eo; [discriminate|].
  simpl in En. injection En as <-.
  unfold validate_options in Eo.
  destruct (dict_get "options" kv0) as [x|].
  2: { destruct (optional_is_required P); inversion Eo; reflexivity. }
  destruct x; try (inversion Eo; reflexivity).
  destruct (mapM (StoryOptionLLM_validate P) xs) as [ys|e3] eqn:Em;
    [discriminate|].
  simpl in Eo. injection Eo as <-.
  clear - Em. revert Em. induction xs as [|x xs IH]; simpl; [discriminate|].
  destruct (StoryOptionLLM_validate P x) as [y|e4] eqn:Ex; simpl.
  - destruct (mapM (StoryOptionLLM_validate P) xs); simpl;
      [discriminate|].
    intros H. injection H as <-. now apply IH.
  - intros H. injection H as <-.
    unfold StoryOptionLLM_validate in Ex.
    destruct x; try (inversion Ex; reflexivity).
    unfold required in Ex.
    repeat match type of Ex with
    | context [match dict_get ?f ?d with _ => _ end] =>
        destruct (dict_get f d); [|inversion Ex; reflexivity]
    | context [match to_str P ?x with _ => _ end] =>
        destruct (to_str P x); [|inversion Ex; reflexivity]
    | context [match to_dict P ?x with _ => _ end] =>
        destruct (to_dict P x); [|inversion Ex; reflexivity]
    end.
    discriminate.
Qed.

End schema_facts.

(** Validation and the shape the declarations ask for are the same. *)

Section schema_shape.
Import core_models.
Variable P : Pydantic.

Lemma required_Ok_iff {A : Type} (conv : Value -> option A) kv f a :
  required conv kv f = Ok a <->
  exists x, dict_get f kv = Some x /\ conv x = Some a.
Proof.
  unfold required. split.
  - destruct (dict_get f kv) as [x|]; [|discriminate].
    destruct (conv x) as [a'|] eqn:E; [|discriminate].
    intros [= <-]. eauto.
  - intros (x & -> & ->). reflexivity.
Qed.

Lemma option_shape_iff v o :
  StoryOptionLLM_validate P v = Ok o <-> option_shape P v o.
Proof.
  unfold StoryOptionLLM_validate, option_shape. split.
  - destruct v as [| | | | |kv]; try discriminate.
    destruct (required (to_str P) kv "text") as [t|] eqn:Et;
      cbn [bind]; [|discriminate].
    destruct (required (to_dict P) kv "nextNode") as [n|] eqn:En;
      cbn [bind]; [|discriminate].
    intros [= <-]. cbn [text nextNode].
    apply required_Ok_iff in Et. destruct Et as (x & Hx & Hcx).
    apply required_Ok_iff in En. destruct En as (y & Hy & Hcy).
    exists kv, x, y. auto.
  - intros (kv & t & n & -> & Ht & Hct & Hn & Hcn).
    rewrite (proj2 (required_Ok_iff (to_str P) kv "text" (text o)))
      by eauto.
    rewrite (proj2 (required_Ok_iff (to_dict P) kv "nextNode" (nextNode o)))
      by eauto.
    now destruct o.
Qed.

Lemma mapM_Ok_iff {A B : Type} (f : A -> result B) xs ys :
  mapM f xs = Ok ys <-> Forall2 (fun x y => f x = Ok y) xs ys.
Proof.
  split.
  - revert ys. induction xs as [|x xs IH]; intros ys; cbn [mapM].
    + intros [= <-]. constructor.
    + destruct (f x) as [y|] eqn:Ex; cbn [bind]; [|discriminate].
      destruct (mapM f xs) as [ys'|]; cbn [bind]; [|discriminate].
      intros [= <-]. constructor; [exact Ex | now apply IH].
  - induction 1 as [|x y xs ys Hxy _ IH]; cbn [mapM]; [reflexivity|].
    now rewrite Hxy, IH.
Qed.

Lemma options_shape_iff kv os :
  validate_options P kv = Ok os <-> options_shape P kv os.
Proof.
  unfold validate_options, options_shape. split.
  - destruct (dict_get "options" kv) as [v|].
    + destruct v; try discriminate.
      * intros [= <-]. now left.
      * destruct (mapM (StoryOptionLLM_validate P) xs) as [os'|] eqn:E;
          cbn [bind]; [|discriminate].
        intros [= <-]. exists xs. split; [reflexivity|].
        apply mapM_Ok_iff in E.
        eapply Forall2_impl; [|exact E].
        intros x o Hxo. now apply option_shape_iff.
    + destruct (optional_is_required P); [discriminate|].
      intros [= <-]. now right.
  - destruct os as [os|].
    + intros (xs & -> & H).
      assert (E : mapM (StoryOptionLLM_validate P) xs = Ok os).
      { apply mapM_Ok_iff. eapply Forall2_impl; [|exact H].
        intros x o Hxo. now apply option_shape_iff. }
      now rewrite E.
    + intros [->|[-> ->]]; reflexivity.
Qed.

Lemma node_shape_iff v n :
  StoryNodeLLM_validate P v = Ok n <-> node_shape P v n.
Proof.
  unfold StoryNodeLLM_validate, node_shape. split.
  - destruct v as [| | | | |kv]; try discriminate.
    destruct (required (to_str P) kv "content") as [c|] eqn:Ec;
      cbn [bind]; [|discriminate].
    destruct (required (to_bool P) kv "isEnding") as [e|] eqn:Ee;
      cbn [bind]; [|discriminate].
    destruct (required (to_bool P) kv "isWinningEnding") as [w|] eqn:Ew;
      cbn [bind]; [|discriminate].
    destruct (validate_options P kv) as [os|] eqn:Eo;
      cbn [bind]; [|discriminate].
    intros [= <-]. cbn [content isEnding isWinningEnding options].
    apply required_Ok_iff in Ec. destruct Ec as (x & Hx & Hcx).
    apply required_Ok_iff in Ee. destruct Ee as (y & Hy & Hcy).
    apply required_Ok_iff in Ew. destruct Ew as (z & Hz & Hcz).
    apply options_shape_iff in Eo.
    exists kv, x, y, z. repeat split; assumption.
  - intros (kv & c & e & w & -> & Hc & Hcc & He & Hce & Hw & Hcw & Ho).
    rewrite (proj2 (required_Ok_iff (to_str P) kv "content" (content n)))
      by eauto.
    rewrite (proj2 (required_Ok_iff (to_bool P) kv "isEnding" (isEnding n)))
      by eauto.
    rewrite (proj2 (required_Ok_iff (to_bool P) kv "isWinningEnding"
                      (isWinningEnding n))) by eauto.
    rewrite (proj2 (options_shape_iff kv (options n)) Ho).
    now destruct n.
Qed.

Lemma response_shape_iff v r :
  StoryLLMResponse_validate P v = Ok r <-> response_shape P v r.
Proof.
  unfold StoryLLMResponse_validate, response_shape. split.
  - destruct v as [| | | | |kv]; try discriminate.
    destruct (required (to_str P) kv "title") as [t|] eqn:Et;
      cbn [bind]; [|discriminate].
    destruct (dict_get "rootNode" kv) as [n|] eqn:En; [|discriminate].
    destruct (StoryNodeLLM_validate P n) as [root|] eqn:Er;
      cbn [bind]; [|discriminate].
    intros [= <-]. cbn [title rootNode].
    apply required_Ok_iff in Et. destruct Et as (x & Hx & Hcx).
    apply node_shape_iff in Er.
    exists kv, x, n. repeat split; assumption.
  - intros (kv & t & n & -> & Ht & Hct & Hn & Hr).
    rewrite (proj2 (required_Ok_iff (to_str P) kv "title" (title r)))
      by eauto.
    cbn [bind]. rewrite Hn. rewrite (proj2 (node_shape_iff n (rootNode r)) Hr).
    now destruct r.
Qed.

End schema_shape.

Section schema_claims.
Import core_models samples.

(** C3 (counterexample).  A response whose option leads to an empty dict
    is accepted, although that next-node is not a node: validated on its
    own the empty dict is rejected. *)
Lemma shallow_response_accepted :
  StoryLLMResponse_validate strict shallow_response
  = Ok {| title := "T";
          rootNode := {| content := "C"; isEnding := false;
                         isWinningEnding := false;
                         options := Some [{| text := "go";
                                             nextNode := [] |}] |} |}
  /\ StoryNodeLLM_validate strict (VDict []) = Raise ValidationError.
Proof. split; reflexivity. Qed.

(** C3 (amended).  Validating a service response either fails with a
    validation error or yields a typed story, and the check is one level
    deep.  A response is accepted exactly when it has the shape the
    class declarations ask for: a dict whose title converts to a string
    and whose root node is a dict with a content that converts to a
    string, two flags that convert to booleans, and options that are
    null or a list of dicts, each with a text that converts to a string
    and a next node that converts to a dict; the story it yields holds
    those converted values.  Nothing more is asked of a next node: it is
    not validated as a node, and every typed story, whatever dicts its
    next nodes are, is accepted as it stands. *)
Theorem validation_is_one_level_deep (P : Pydantic) :
  lawful P ->
  (forall v, StoryLLMResponse_validate P v = Raise ValidationError \/
             exists r, StoryLLMResponse_validate P v = Ok r) /\
  (forall r, StoryLLMResponse_validate P (StoryLLMResponse_dump r) = Ok r) /\
  (forall v r, StoryLLMResponse_validate P v = Ok r <-> response_shape P v r).
Proof.
  intros HP. split; [|split].
  - apply validate_outcome.
  - intros [t n]. unfold StoryLLMResponse_validate, StoryLLMResponse_dump.
    rewrite (required_str P HP _ _ t) by reflexivity.
    cbn [dict_get String.eqb Ascii.eqb Bool.eqb title rootNode].
    rewrite (StoryNodeLLM_validate_dump P HP). reflexivity.
  - apply response_shape_iff.
Qed.

Lemma validation_is_one_level_deep_witness :
  StoryLLMResponse_validate strict
    (StoryLLMResponse_dump
       {| title := "T";
          rootNode := {| content := "C"; isEnding := false;
                         isWinningEnding := false;
                         options := Some [{| text := "go";
                                             nextNode := [("x", VInt 1)]
                                          |}] |} |})
  = Ok {| title := "T";
          rootNode := {| content := "C"; isEnding := false;
                         isWinningEnding := false;
                         options := Some [{| text := "go";
                                             nextNode := [("x", VInt 1)]
                                          |}] |} |}.
Proof.
  assert (H : lawful strict) by (repeat split; reflexivity).
  apply (proj1 (proj2 (validation_is_one_level_deep strict H))).
Defined.

(** C4 (counterexample).  A node whose is-ending flag is true and whose
    option list is not empty is accepted. *)
Lemma ending_with_option_accepted :
  StoryNodeLLM_validate strict ending_with_option
  = Ok {| content := "C"; isEnding := true; isWinningEnding := false;
          options := Some [{| text := "go"; nextNode := [] |}] |}.
Proof. reflexivity. Qed.

(** C4 (amended).  Validation does not relate the is-ending flag to the
    option list: if a node is accepted, the same node with is-ending set
    to either boolean is accepted too, with the same content, winning
    flag and options. *)
Theorem isEnding_does_not_constrain_options (P : Pydantic)
    (kv : list (string * Value)) (n : StoryNodeLLM) (b : bool) :
  lawful P ->
  StoryNodeLLM_validate P (VDict kv) = Ok n ->
  StoryNodeLLM_validate P (VDict (dict_set "isEnding" (VBool b) kv))
  = Ok {| content := content n; isEnding := b;
          isWinningEnding := isWinningEnding n; options := options n |}.
Proof.
  intros HP H. unfold StoryNodeLLM_validate in *.
  rewrite (required_bool P HP _ "isEnding" b)
    by apply dict_get_set_eq.
  unfold required, validate_options in *.
  rewrite !(dict_get_set_ne "isEnding") by discriminate.
  destruct (dict_get "content" kv) as [vc|]; [|discriminate].
  destruct (to_str P vc) as [c|]; [|discriminate].
  destruct (dict_get "isEnding" kv) as [ve|]; [|discriminate].
  destruct (to_bool P ve) as [e|]; [|discriminate].
  destruct (dict_get "isWinningEnding" kv) as [vw|]; [|discriminate].
  destruct (to_bool P vw) as [w|]; [|discriminate].
  cbn [bind] in *.
  destruct (match dict_get "options" kv with
            | Some VNone => _ | Some (VList xs) => _ | Some _ => _
            | None => _ end) as [os|]; [|discriminate].
  cbn [bind] in *. injection H as <-. reflexivity.
Qed.

Lemma isEnding_does_not_constrain_options_witness :
  StoryNodeLLM_validate strict
    (VDict (dict_set "isEnding" (VBool true) open_node))
  = Ok {| content := "C"; isEnding := true; isWinningEnding := false;
          options := Some [{| text := "go"; nextNode := [] |}] |}.
Proof.
  apply (isEnding_does_not_constrain_options strict open_node
           {| content := "C"; isEnding := false; isWinningEnding := false;
              options := Some [{| text := "go"; nextNode := [] |}] |}
           true).
  - repeat split; reflexivity.
  - reflexivity.
Defined.

End schema_claims.

(** ** models/story.py: what the table lets in *)

Section table_facts.

Lemma apply_defaults_keeps t o a v :
  dict_get a o = Some v -> v <> VNone ->
  dict_get a (apply_defaults t o) = Some v.
Proof.
  intros H Hv. unfold apply_defaults. revert o H.
  induction (columns t) as [|c cs IH]; intros o H; simpl; [exact H|].
  apply IH.
  destruct (default c) as [d|]; [|exact H].
  destruct (left_out c o) eqn:E; [|exact H].
  rewrite dict_get_set_ne; [exact H|]. intros Hn. subst a.
  unfold left_out in E. rewrite H in E. destruct v; congruence.
Qed.

Lemma apply_defaults_no_default t o a :
  (forall c, In c (columns t) -> name c = a -> default c = None) ->
  dict_get a (apply_defaults t o) = dict_get a o.
Proof.
  unfold apply_defaults. revert o.
  induction (columns t) as [|c cs IH]; intros o H; simpl; [reflexivity|].
  rewrite IH by (intros; apply H; [now right | assumption]).
  destruct (default c) eqn:D; [|reflexivity].
  destruct (left_out c o); [|reflexivity].
  apply dict_get_set_ne. intros Hn.
  rewrite (H c (or_introl eq_refl) Hn) in D. discriminate.
Qed.

Lemma StoryNode_story_id_after_defaults o :
  column_value (apply_defaults StoryNode o) "story_id"
  = column_value o "story_id".
Proof.
  unfold column_value. rewrite apply_defaults_no_default; [reflexivity|].
  intros c Hc Hn. simpl in Hc.
  repeat (destruct Hc as [<-|Hc]; [reflexivity || discriminate Hn|]).
  destruct Hc.
Qed.

Lemma StoryNode_id_after_defaults o :
  column_value (apply_defaults StoryNode o) "id" = column_value o "id".
Proof.
  unfold column_value. rewrite apply_defaults_no_default; [reflexivity|].
  intros c Hc Hn. simpl in Hc.
  repeat (destruct Hc as [<-|Hc]; [reflexivity || discriminate Hn|]).
  destruct Hc.
Qed.

(** The NOT NULL columns of the node table are its key and [story_id]. *)
Lemma null_violation_StoryNode o :
  null_violation StoryNode o
  = if is_None (column_value o "id")
    then nth_error (columns StoryNode) 0
    else if is_None (column_value o "story_id")
         then nth_error (columns StoryNode) 1
         else None.
Proof.
  unfold null_violation.
  cbn [columns StoryNode find nullable nullable_kw primary_key name negb
       andb nth_error].
  destruct (is_None (column_value o "id")); [reflexivity|].
  destruct (is_None (column_value o "story_id")); reflexivity.
Qed.

(** The row as the store sees it once the key is settled. *)
Lemma keyed_row_id o rows :
  is_None (column_value (keyed o rows) "id") = false.
Proof.
  unfold keyed, pk_of. destruct (column_value o "id") eqn:E;
    try (rewrite E; reflexivity).
  now rewrite column_value_setattr_eq.
Qed.

Lemma keyed_row_other o rows a :
  a <> "id" -> column_value (keyed o rows) a = column_value o a.
Proof.
  intros Ha. unfold keyed. destruct (pk_of o); try reflexivity.
  apply column_value_setattr_ne. congruence.
Qed.

(** A node without a story reference is refused. *)
Lemma insert_StoryNode_needs_story o rows :
  column_value o "story_id" = VNone ->
  insert StoryNode o rows = Raise (IntegrityError "story_nodes" "story_id").
Proof.
  intros H. unfold insert. cbv zeta.
  rewrite null_violation_StoryNode, keyed_row_id.
  rewrite keyed_row_other by discriminate.
  rewrite StoryNode_story_id_after_defaults, H. reflexivity.
Qed.

Lemma differ_at_setattr k v o : differ_at k v o (setattr o k v).
Proof.
  intros a. unfold setattr. destruct (String.eqb a k) eqn:E.
  - apply String.eqb_eq in E. subst a. apply dict_get_set_eq.
  - apply String.eqb_neq in E. apply dict_get_set_ne. congruence.
Qed.

Lemma differ_at_dict_set k v o o' a d :
  a <> k -> differ_at k v o o' ->
  differ_at k v (dict_set a d o) (dict_set a d o').
Proof.
  intros Ha H b. specialize (H b).
  destruct (String.eqb b k) eqn:E.
  - apply String.eqb_eq in E. subst b.
    rewrite dict_get_set_ne by exact Ha. exact H.
  - destruct (String.eqb_spec a b) as [->|Hab].
    + now rewrite !dict_get_set_eq.
    + now rewrite !dict_get_set_ne by exact Hab.
Qed.

(** Defaults do not look at an attribute whose column has none. *)
Lemma differ_at_apply_defaults t k v o o' :
  (forall c, In c (columns t) -> name c = k -> default c = None) ->
  differ_at k v o o' ->
  differ_at k v (apply_defaults t o) (apply_defaults t o').
Proof.
  unfold apply_defaults. revert o o'.
  induction (columns t) as [|c cs IH]; intros o o' Hk H; simpl; [exact H|].
  apply IH; [intros; apply Hk; [now right | assumption]|].
  destruct (default c) as [d|] eqn:D; [|exact H].
  assert (Hc : name c <> k).
  { intros Hn. rewrite (Hk c (or_introl eq_refl) Hn) in D. discriminate. }
  assert (E : left_out c o' = left_out c o).
  { unfold left_out. rewrite (H (name c)).
    apply String.eqb_neq in Hc. now rewrite Hc. }
  rewrite E. destruct (left_out c o); [|exact H].
  now apply differ_at_dict_set.
Qed.

Lemma differ_at_column_value k v o o' a :
  differ_at k v o o' -> a <> k -> column_value o' a = column_value o a.
Proof.
  intros H Ha. unfold column_value. rewrite (H a).
  apply String.eqb_neq in Ha. now rewrite Ha.
Qed.

Lemma differ_at_column_value_eq k v o o' :
  differ_at k v o o' -> column_value o' k = v.
Proof.
  intros H. unfold column_value. now rewrite (H k), String.eqb_refl.
Qed.

Lemma differ_at_keyed k v o o' rows :
  k <> "id" -> differ_at k v o o' ->
  differ_at k v (keyed o rows) (keyed o' rows).
Proof.
  intros Hk H. unfold keyed.
  assert (Hpk : pk_of o' = pk_of o)
    by (apply (differ_at_column_value _ _ _ _ _ H); congruence).
  rewrite Hpk. destruct (pk_of o); try exact H.
  apply differ_at_dict_set; [congruence | exact H].
Qed.

(** What [insert] does to two nodes that differ in their content only. *)
Lemma insert_StoryNode_content o rows v :
  match insert StoryNode o rows,
        insert StoryNode (setattr o "content" v) rows with
  | Ok (o1, _), Ok (o2, rows2) =>
      rows2 = (rows ++ [o2])%list /\
      column_value o2 "content" = v /\
      forall a, a <> "content" -> column_value o2 a = column_value o1 a
  | Raise e1, Raise e2 => e1 = e2
  | _, _ => False
  end.
Proof.
  assert (H : differ_at "content" v
                (keyed (apply_defaults StoryNode o) rows)
                (keyed (apply_defaults StoryNode (setattr o "content" v))
                   rows)).
  { apply differ_at_keyed; [discriminate|].
    apply differ_at_apply_defaults; [|apply differ_at_setattr].
    intros c Hc Hn. simpl in Hc.
    repeat (destruct Hc as [<-|Hc]; [reflexivity || discriminate Hn|]).
    destruct Hc. }
  unfold insert. cbv zeta.
  set (p := keyed (apply_defaults StoryNode o) rows) in *.
  set (p' := keyed (apply_defaults StoryNode (setattr o "content" v)) rows)
    in *.
  rewrite !null_violation_StoryNode.
  unfold pk_of.
  rewrite (differ_at_column_value _ _ _ _ "id" H) by discriminate.
  rewrite (differ_at_column_value _ _ _ _ "story_id" H) by discriminate.
  destruct (is_None (column_value p "id")); [reflexivity|].
  destruct (is_None (column_value p "story_id")); [reflexivity|].
  destruct (key_taken (column_value p "id") rows); [reflexivity|].
  split; [reflexivity|]. split.
  - apply (differ_at_column_value_eq _ _ _ _ H).
  - intros a Ha. now apply (differ_at_column_value _ _ _ _ _ H).
Qed.

End table_facts.

Section table_claims.
Import samples.

(** C5 (counterexample).  A node that names its story and has no content
    is stored, and reads back with [content] equal to [None]. *)
Lemma node_without_content_stored :
  exists o, insert StoryNode node_without_content [] = Ok (o, [o]) /\
            column_value o "content" = VNone.
Proof. eexists. split; reflexivity. Qed.

(** C5 (amended).  The content column of a story node is nullable, so the
    content never decides whether a node is stored.  With its content
    replaced by any other value, [None] included, a node is refused
    exactly when it is refused as it stands, and for the same reason; and
    when it is stored as it stands, it is stored with the other content
    too, reads back with that content, and is otherwise the same node. *)
Theorem content_is_nullable (o : Row) (rows : list Row) (v : Value) :
  (forall e,
      insert StoryNode o rows = Raise e <->
      insert StoryNode (setattr o "content" v) rows = Raise e) /\
  (forall o1 rows1,
      insert StoryNode o rows = Ok (o1, rows1) ->
      exists o2,
        insert StoryNode (setattr o "content" v) rows
        = Ok (o2, (rows ++ [o2])%list) /\
        column_value o2 "content" = v /\
        forall a, a <> "content" -> column_value o2 a = column_value o1 a).
Proof.
  pose proof (insert_StoryNode_content o rows v) as H.
  destruct (insert StoryNode o rows) as [[o1 rows1]|e1];
    destruct (insert StoryNode (setattr o "content" v) rows)
      as [[o2 rows2]|e2]; try contradiction.
  - split.
    + intros e. split; discriminate.
    + intros o1' rows1' [= <- <-]. destruct H as (-> & Hc & Ha).
      exists o2. auto.
  - subst e2. split.
    + intros e. split; trivial.
    + discriminate.
Qed.

Lemma content_is_nullable_witness :
  exists o2,
    insert StoryNode
      (setattr [("story_id", VInt 1); ("content", VStr "C")] "content" VNone)
      []
    = Ok (o2, [o2]) /\
    column_value o2 "content" = VNone /\
    column_value o2 "story_id" = VInt 1.
Proof.
  destruct (proj2 (content_is_nullable
                     [("story_id", VInt 1); ("content", VStr "C")] [] VNone)
              _ _ eq_refl)
    as (o2 & Hins & Hc & Ha).
  exists o2. split; [exact Hins|]. split; [exact Hc|].
  rewrite Ha by discriminate. reflexivity.
Defined.

End table_claims.

(** ** Reading: routers/job.py and the read path of routers/story.py *)

Section read_facts.
Import routers_job routers_story.

Lemma read_only_ret {A} (a : A) : read_only (ret a).
Proof. intros db. reflexivity. Qed.

Lemma read_only_raise {A} e : read_only (@raise A e).
Proof. intros db. reflexivity. Qed.

Lemma read_only_lift {A} (r : result A) : read_only (lift r).
Proof. intros db. reflexivity. Qed.

Lemma read_only_query {A} (f : DB -> A) : read_only (query f).
Proof. intros db. reflexivity. Qed.

Lemma read_only_mbind {A B} (m : M A) (k : A -> M B) :
  read_only m -> (forall a, read_only (k a)) -> read_only (mbind m k).
Proof.
  intros Hm Hk db. unfold mbind. specialize (Hm db).
  destruct (m db) as [[a|e] db']; simpl in *; subst db'.
  - apply Hk.
  - reflexivity.
Qed.

Create HintDb reads.
#[local] Hint Resolve read_only_ret read_only_raise read_only_lift
  read_only_query : reads.

Ltac read_only_steps :=
  repeat (apply read_only_mbind; [auto with reads | intros ?]);
  auto with reads.

Lemma build_complete_story_tree_read_only story :
  read_only (build_complete_story_tree story).
Proof.
  unfold build_complete_story_tree. read_only_steps.
  match goal with |- read_only (match ?x with _ => _ end) => destruct x end;
    read_only_steps.
Qed.

Lemma get_complete_story_read_only story_id :
  read_only (get_complete_story story_id).
Proof.
  unfold get_complete_story.
  destruct (int64 story_id); [|read_only_steps].
  read_only_steps.
  match goal with |- read_only (match ?x with _ => _ end) => destruct x end;
    [apply build_complete_story_tree_read_only | read_only_steps].
Qed.

Lemma get_job_status_read_only job_id : read_only (get_job_status job_id).
Proof.
  unfold get_job_status. read_only_steps.
  match goal with |- read_only (match ?x with _ => _ end) => destruct x end;
    read_only_steps.
Qed.

(** Filtering on an identity. *)
Lemma sql_eq_VStr a s : sql_eq a (VStr s) = true -> a = VStr s.
Proof.
  destruct a; simpl; try discriminate.
  intros H. apply String.eqb_eq in H. now subst.
Qed.

Lemma sql_eq_VInt a n : sql_eq a (VInt n) = true -> a = VInt n.
Proof.
  destruct a; simpl; try discriminate.
  intros H. apply Z.eqb_eq in H. now subst.
Qed.

Lemma filter_eq_absent col v rows :
  (forall a, sql_eq a v = true -> a = v) ->
  (forall o, In o rows -> column_value o col <> v) ->
  filter_eq col v rows = [].
Proof.
  intros Hv H. unfold filter_eq.
  induction rows as [|o rows IH]; simpl; [reflexivity|].
  destruct (sql_eq (column_value o col) v) eqn:E.
  - apply Hv in E. exfalso. apply (H o); [now left | exact E].
  - apply IH. intros o' Ho'. apply H. now right.
Qed.

(** Attribute access fails in one way only. *)
Lemma getattr_Raise t o a e :
  getattr t o a = Raise e -> e = AttributeError (classname t) a.
Proof.
  unfold getattr. destruct (declares t a); [discriminate|].
  now intros [= <-].
Qed.

Lemma node_response_Raise node e :
  node_response node = Raise e -> exists a, e = AttributeError "StoryNode" a.
Proof.
  unfold node_response.
  repeat match goal with
  | |- context [getattr StoryNode node ?a] =>
      let E := fresh "E" in
      destruct (getattr StoryNode node a) eqn:E; cbn [bind];
      [| apply getattr_Raise in E; intros [= <-]; eauto]
  end.
  discriminate.
Qed.

Lemma build_node_dict_Raise nodes d e :
  build_node_dict nodes d = Raise e ->
  exists a, e = AttributeError "StoryNode" a.
Proof.
  revert d. induction nodes as [|node rest IH]; intros d;
    cbn [build_node_dict]; [discriminate|].
  destruct (node_response node) as [r|e'] eqn:E; cbn [bind].
  - destruct (getattr StoryNode node "id") as [k|e''] eqn:Ek; cbn [bind].
    + apply IH.
    + apply getattr_Raise in Ek. intros [= <-]. eauto.
  - intros [= <-]. eapply node_response_Raise, E.
Qed.

(** The loop body as written cannot build a node view: [StoryNode]
    declares [is_winning], the loop reads [is_winning_ending]. *)
Lemma node_response_AttributeError node :
  node_response node
  = Raise (AttributeError "StoryNode" "is_winning_ending").
Proof. reflexivity. Qed.

Lemma build_node_dict_nonempty node rest d :
  build_node_dict (node :: rest) d
  = Raise (AttributeError "StoryNode" "is_winning_ending").
Proof. reflexivity. Qed.

(** The scan for the root is [find] on the loaded nodes. *)
Lemma next_root_find nodes :
  next_root nodes
  = Ok (find (fun o => truthy (column_value o "is_root")) nodes).
Proof.
  induction nodes as [|node rest IH]; simpl; [reflexivity|].
  change (getattr StoryNode node "is_root")
    with (@Ok Value (column_value node "is_root")).
  cbn [bind].
  destruct (truthy (column_value node "is_root")); [reflexivity | exact IH].
Qed.

End read_facts.

Section read_claims.
Import routers_job routers_story samples expander.

(** C1 (failing input).  For the story whose single node is its root,
    assembly returns no view: building the node view reads the attribute
    [is_winning_ending], which [StoryNode] does not declare, and the
    request ends in an [AttributeError]. *)
Theorem build_complete_story_tree_one_node :
  build_complete_story_tree story1 db_one_node
  = (Raise (AttributeError "StoryNode" "is_winning_ending"), db_one_node).
Proof. reflexivity. Qed.

(** The same holds of every story that has a node at all. *)
Lemma build_complete_story_tree_nonempty story db :
  filter_eq "story_id" (column_value story "id") (story_nodes db) <> [] ->
  build_complete_story_tree story db
  = (Raise (AttributeError "StoryNode" "is_winning_ending"), db).
Proof.
  intros H. unfold build_complete_story_tree, mbind, lift, query.
  change (getattr Story story "id") with (@Ok Value (column_value story "id")).
  cbv beta iota.
  destruct (filter_eq "story_id" (column_value story "id") (story_nodes db))
    as [|node rest]; [congruence|].
  reflexivity.
Qed.

(** Assembly of a story without nodes ends in the root-not-found fault. *)
Lemma build_complete_story_tree_empty story db :
  filter_eq "story_id" (column_value story "id") (story_nodes db) = [] ->
  build_complete_story_tree story db = (Raise RootNotFound, db).
Proof.
  intros H. unfold build_complete_story_tree, mbind, lift, query.
  change (getattr Story story "id") with (@Ok Value (column_value story "id")).
  cbv beta iota. rewrite H. reflexivity.
Qed.

(** The root-not-found fault is raised only when the scan finds no
    root-flagged node. *)
Lemma RootNotFound_only_without_root story db :
  fst (build_complete_story_tree story db) = Raise RootNotFound ->
  find (fun o => truthy (column_value o "is_root"))
       (filter_eq "story_id" (column_value story "id") (story_nodes db))
  = None.
Proof.
  unfold build_complete_story_tree, mbind, lift, query.
  change (getattr Story story "id")
    with (@Ok Value (column_value story "id")).
  cbv beta iota.
  set (nodes := filter_eq "story_id" (column_value story "id")
                  (story_nodes db)).
  destruct (build_node_dict nodes []) as [d|e] eqn:E.
  - rewrite next_root_find.
    destruct (find _ nodes) as [root|]; [|reflexivity].
    change (getattr Story story "title")
      with (@Ok Value (column_value story "title")).
    change (getattr Story story "session_id")
      with (@Ok Value (column_value story "session_id")).
    change (getattr Story story "created_at")
      with (@Ok Value (column_value story "created_at")).
    change (getattr StoryNode root "id")
      with (@Ok Value (column_value root "id")).
    cbv beta iota. unfold getitem.
    destruct (vdict_get (column_value root "id") d); simpl; discriminate.
  - apply build_node_dict_Raise in E. destruct E as [a ->].
    simpl. discriminate.
Qed.







(** C9 (failing input).  Assembly yields no view to compare: whatever the
    story and the store, a call ends in a fault and leaves the store as
    it was, and a second call on that store ends in the same fault.  For
    a story with nodes the fault is the [AttributeError] of C1. *)
Theorem build_complete_story_tree_never_a_view (story : Row) (db : DB) :
  exists e,
    build_complete_story_tree story db = (Raise e, db) /\
    build_complete_story_tree story (snd (build_complete_story_tree story db))
    = (Raise e, db) /\
    (filter_eq "story_id" (column_value story "id") (story_nodes db) <> [] ->
     e = AttributeError "StoryNode" "is_winning_ending").
Proof.
  destruct (filter_eq "story_id" (column_value story "id") (story_nodes db))
    as [|node rest] eqn:E.
  - exists RootNotFound.
    rewrite (build_complete_story_tree_empty story db E).
    split; [reflexivity|]. split; [|congruence].
    cbn [snd]. now apply build_complete_story_tree_empty.
  - assert (H : build_complete_story_tree story db
                = (Raise (AttributeError "StoryNode" "is_winning_ending"),
                   db))
      by (apply build_complete_story_tree_nonempty; rewrite E; discriminate).
    eexists. rewrite H. cbn [snd]. split; [reflexivity|].
    split; [exact H | reflexivity].
Qed.

Lemma build_complete_story_tree_never_a_view_witness :
  build_complete_story_tree story1
    (snd (build_complete_story_tree story1 db_one_node))
  = (Raise (AttributeError "StoryNode" "is_winning_ending"), db_one_node).
Proof.
  destruct (build_complete_story_tree_never_a_view story1 db_one_node)
    as (e & _ & H & He).
  rewrite H. rewrite He; [reflexivity | discriminate].
Defined.

End read_claims.

(** ** The background task of routers/story.py *)

Section task_facts.
Import routers_story.

Lemma first_filter_Some (p : Row -> bool) rows o :
  first (filter p rows) = Some o -> p o = true.
Proof.
  induction rows as [|o' rows IH]; simpl; [discriminate|].
  destruct (p o') eqn:E; simpl; [|exact IH].
  now intros [= <-].
Qed.

Lemma first_filter_update_first (p : Row -> bool) rows old new :
  first (filter p rows) = Some old ->
  p new = true ->
  first (filter p (update_first p new rows)) = Some new.
Proof.
  intros H Hnew. induction rows as [|o rows IH]; simpl in *; [discriminate|].
  destruct (p o) eqn:E; simpl.
  - now rewrite Hnew.
  - rewrite E. now apply IH.
Qed.

Lemma story_jobs_commit_job job_id job db :
  story_jobs (commit_job job_id job db)
  = update_first (fun o => sql_eq (column_value o "job_id") (VStr job_id))
      job (story_jobs db).
Proof. reflexivity. Qed.

(** Committing a job that still carries its identifier keeps it the first
    row found under that identifier. *)
Lemma first_after_commit job_id old job db :
  first (filter_eq "job_id" (VStr job_id) (story_jobs db)) = Some old ->
  column_value job "job_id" = column_value old "job_id" ->
  first (filter_eq "job_id" (VStr job_id)
           (story_jobs (commit_job job_id job db))) = Some job.
Proof.
  intros H Hid. rewrite story_jobs_commit_job. unfold filter_eq in *.
  eapply first_filter_update_first; [exact H|].
  cbv beta. rewrite Hid.
  apply first_filter_Some in H. exact H.
Qed.

End task_facts.

Section task_claims.
Import routers_story samples.

(** What a run records when the job exists, outcome by outcome: the
    generator is called once; if it returns a story, the record shows
    that story, status [completed] and the completion time; if it raises
    an exception with the session usable, the record shows status
    [failed], the message and the completion time; if it raises out of a
    failed flush, the handler's commit fails and the record stays as the
    run found it but for status [processing].  (The generator is taken
    to leave the job table alone.) *)
Lemma generate_story_task_outcomes
    (generate_story : DB -> string -> string -> GenOutcome) (now : Z)
    (job_id theme session_id : string) (w : World) (job : Row) :
  first (filter_eq "job_id" (VStr job_id) (story_jobs (store w))) = Some job ->
  let db1 :=
    commit_job job_id (setattr job "status" (VStr "processing")) (store w) in
  let run := generate_story_task generate_story now job_id theme session_id w in
  let recorded :=
    first (filter_eq "job_id" (VStr job_id) (story_jobs (store (snd run)))) in
  generator_calls (snd run)
  = (generator_calls w ++ [(session_id, theme)])%list /\
  match generate_story db1 session_id theme with
  | GenReturn db2 story =>
      fst run = Returned /\
      (story_jobs db2 = story_jobs db1 ->
       exists job',
         recorded = Some job' /\
         column_value job' "status" = VStr "completed" /\
         column_value job' "story_id" = column_value story "id" /\
         column_value job' "completed_at" = VInt now /\
         column_value job' "error" = column_value job "error")
  | GenRaise db2 e =>
      is_Exception e = true ->
      fst run = Returned /\
      (story_jobs db2 = story_jobs db1 ->
       exists job',
         recorded = Some job' /\
         column_value job' "status" = VStr "failed" /\
         column_value job' "error" = VStr (exc_str e) /\
         column_value job' "completed_at" = VInt now /\
         column_value job' "story_id" = column_value job "story_id")
  | GenFlushError db2 e =>
      fst run = HandlerFailed /\
      (story_jobs db2 = story_jobs db1 ->
       exists job',
         recorded = Some job' /\
         column_value job' "status" = VStr "processing" /\
         column_value job' "error" = column_value job "error" /\
         column_value job' "completed_at" = column_value job "completed_at")
  end.
Proof.
  intros H db1 run recorded.
  assert (H1 : first (filter_eq "job_id" (VStr job_id) (story_jobs db1))
               = Some (setattr job "status" (VStr "processing"))).
  { apply (first_after_commit job_id job); [exact H|].
    now autorewrite with attrs. }
  subst run recorded. unfold generate_story_task. rewrite H. cbv zeta.
  fold db1.
  destruct (generate_story db1 session_id theme)
    as [db2 story|db2 e|db2 e].
  - cbn [fst snd store generator_calls].
    split; [reflexivity|]. split; [reflexivity|].
    intros Hjobs. rewrite <- Hjobs in H1.
    eexists. split.
    + eapply first_after_commit; [exact H1|]. now autorewrite with attrs.
    + now autorewrite with attrs.
  - destruct (is_Exception e) eqn:Ee; cbn [fst snd store generator_calls].
    + split; [reflexivity|]. intros _. split; [reflexivity|].
      intros Hjobs. rewrite <- Hjobs in H1.
      eexists. split.
      * unfold on_exception.
        eapply first_after_commit; [exact H1|]. now autorewrite with attrs.
      * now autorewrite with attrs.
    + split; [reflexivity|]. discriminate.
  - cbn [fst snd store generator_calls].
    split; [reflexivity|]. split; [reflexivity|].
    intros Hjobs. rewrite <- Hjobs in H1.
    eexists. split; [exact H1|]. now autorewrite with attrs.
Qed.

(** C7 (failing input).  The job exists and the generator fails in a
    flush.  The run does not record the failure: the handler's commit
    raises on the rolled-back session, that error leaves the task, and
    the job is left in status [processing] with no error and no
    completion time. *)
Theorem generate_story_task_after_failed_flush :
  generate_story_task gen_flush_fails 5 "j1" "t" "s" world_one_job
  = (HandlerFailed,
     {| store :=
          {| stories := []; story_nodes := [];
             story_jobs := [setattr pending_job "status"
                              (VStr "processing")] |};
        generator_calls := [("s", "t")] |})
  /\ column_value (setattr pending_job "status" (VStr "processing")) "error"
     = VNone
  /\ column_value (setattr pending_job "status" (VStr "processing"))
       "completed_at" = VNone.
Proof. repeat split. Qed.

(** C10.  When no job row carries the identifier, the task returns at
    once: the generator is not called and the store is as it was. *)
Theorem generate_story_task_unknown_job
    (generate_story : DB -> string -> string -> GenOutcome) (now : Z)
    (job_id theme session_id : string) (w : World) :
  (forall o, In o (story_jobs (store w)) ->
             column_value o "job_id" <> VStr job_id) ->
  generate_story_task generate_story now job_id theme session_id w
  = (Returned, w).
Proof.
  intros H. unfold generate_story_task.
  rewrite filter_eq_absent;
    [reflexivity | intros a; apply sql_eq_VStr | exact H].
Qed.

Lemma generate_story_task_unknown_job_witness :
  generate_story_task gen_ok 5 "j2" "t" "s" world_one_job
  = (Returned, world_one_job).
Proof.
  apply (generate_story_task_unknown_job gen_ok 5 "j2" "t" "s" world_one_job).
  intros o [<-|[]]. discriminate.
Defined.

End task_claims.

(** ** The tree expander: endings keep no options *)

Section expander_facts.
Import expander.

(** Induction on schema trees, the option lists included. *)
Lemma SchemaNode_ind (Q : SchemaNode -> Prop) :
  (forall c e w, Q (mkSchemaNode c e w None)) ->
  (forall c e w os,
      Forall (fun tn => Q (snd tn)) os -> Q (mkSchemaNode c e w (Some os))) ->
  forall n, Q n.
Proof.
  intros Hnone Hsome. fix F 1. intros [c e w [os|]].
  - apply Hsome. induction os as [|[t n] os IH]; constructor.
    + apply F.
    + exact IH.
  - apply Hnone.
Qed.

Lemma pk_lt_next_pk rows o k :
  In o rows -> pk_of o = VInt k -> k < next_pk rows.
Proof.
  unfold next_pk. induction rows as [|o' rows IH]; cbn [fold_right In];
    [intros []|].
  intros [->|Hin] Hk.
  - rewrite Hk. lia.
  - specialize (IH Hin Hk). destruct (pk_of o'); lia.
Qed.

Lemma next_pk_app rows added : next_pk rows <= next_pk (rows ++ added).
Proof.
  unfold next_pk. apply Z.add_le_mono_l.
  induction rows as [|o rows IH]; cbn [app fold_right].
  - induction added as [|o added IH]; cbn [fold_right]; [lia|].
    destruct (pk_of o); lia.
  - destruct (pk_of o); lia.
Qed.

Lemma Value_eqb_VInt v k : Value_eqb v (VInt k) = true -> v = VInt k.
Proof.
  destruct v; simpl; try discriminate.
  intros H. apply Z.eqb_eq in H. now subst.
Qed.

Lemma set_options_untouched id v rows :
  (forall o, In o rows -> pk_of o <> VInt id) ->
  set_options id v rows = rows.
Proof.
  intros H. unfold set_options.
  induction rows as [|o rows IH]; simpl; [reflexivity|].
  rewrite IH by (intros; apply H; now right).
  destruct (Value_eqb (pk_of o) (VInt id)) eqn:E; [|reflexivity].
  apply Value_eqb_VInt in E. exfalso. apply (H o); [now left | exact E].
Qed.

Lemma set_options_app id v rows rows' :
  set_options id v (rows ++ rows')
  = (set_options id v rows ++ set_options id v rows')%list.
Proof. unfold set_options. apply map_app. Qed.

Lemma adds_well_trans rows rows1 rows2 :
  adds_well rows rows1 -> adds_well rows1 rows2 -> adds_well rows rows2.
Proof.
  intros (a1 & -> & Hk1 & Hg1) (a2 & -> & Hk2 & Hg2).
  exists (a1 ++ a2)%list. split; [now rewrite app_assoc|]. split.
  - intros o Ho. apply in_app_or in Ho. destruct Ho as [Ho|Ho].
    + now apply Hk1.
    + destruct (Hk2 o Ho) as (k & Hk & Hle). exists k. split; [exact Hk|].
      pose proof (next_pk_app rows a1). lia.
  - intros o Ho. apply in_app_or in Ho. destruct Ho as [Ho|Ho]; auto.
Qed.

Lemma expand_options_adds_well story_id os rows :
  Forall (fun tn =>
            forall rows, adds_well rows
                           (snd (expand story_id (snd tn) false rows))) os ->
  adds_well rows
    (snd (expand_options
            (fun child rows => expand story_id child false rows) os rows)).
Proof.
  intros H. revert rows. induction H as [|[t n] os Hn _ IH]; intros rows.
  - simpl. exists []. split; [now rewrite app_nil_r|]. split; intros o [].
  - cbn [expand_options]. simpl in Hn. specialize (Hn rows).
    destruct (expand story_id n false rows) as [cid rows1]. simpl in Hn.
    specialize (IH rows1).
    destruct (expand_options _ os rows1) as [es rows2]. simpl in *.
    eapply adds_well_trans; eassumption.
Qed.

Lemma expand_adds_well story_id n :
  forall is_root rows,
    adds_well rows (snd (expand story_id n is_root rows)).
Proof.
  induction n as [c e w|c e w os IH] using SchemaNode_ind; intros is_root rows.
  - simpl. destruct e; simpl.
    all: eexists; split; [reflexivity|]; split;
      intros o [<-|[]]; [eexists; split; [reflexivity|lia] | reflexivity].
  - cbn [expand].
    set (id := next_pk rows).
    set (node := new_node id story_id c is_root e w).
    assert (Hnode : adds_well rows (rows ++ [node])).
    { exists [node]. split; [reflexivity|]. split; intros o [<-|[]].
      - exists id. split; [reflexivity | subst id; lia].
      - reflexivity. }
    destruct e; [exact Hnode|].
    destruct os as [|o os]; [exact Hnode|].
    pose proof (expand_options_adds_well story_id (o :: os)
                  (rows ++ [node]) (Forall_impl _ (fun a H => H false) IH))
      as (added & Hrows & Hkeys & Hgood).
    destruct (expand_options _ (o :: os) (rows ++ [node]))
      as [entries rows2].
    simpl in Hrows. subst rows2. cbn [snd].
    assert (Hfresh : id < next_pk (rows ++ [node])).
    { apply (pk_lt_next_pk _ node); [|reflexivity].
      apply in_or_app. right. now left. }
    rewrite <- app_assoc, !set_options_app.
    rewrite (set_options_untouched id _ rows).
    2: { intros o' Ho' Hk. pose proof (pk_lt_next_pk _ _ _ Ho' Hk).
         subst id. lia. }
    rewrite (set_options_untouched id _ added).
    2: { intros o' Ho' Hk. destruct (Hkeys o' Ho') as (k & Hk' & Hle).
         rewrite Hk in Hk'. injection Hk' as <-. lia. }
    exists (set_options id (VList entries) [node] ++ added)%list.
    split; [reflexivity|]. split.
    + intros o' Ho'. apply in_app_or in Ho'. destruct Ho' as [Ho'|Ho'].
      * simpl in Ho'. rewrite Z.eqb_refl in Ho'. destruct Ho' as [<-|[]].
        exists id. split; [reflexivity | subst id; lia].
      * destruct (Hkeys o' Ho') as (k & Hk & Hle). exists k.
        split; [exact Hk|]. pose proof (next_pk_app rows [node]). lia.
    + intros o' Ho'. apply in_app_or in Ho'. destruct Ho' as [Ho'|Ho'].
      * simpl in Ho'. rewrite Z.eqb_refl in Ho'. destruct Ho' as [<-|[]].
        discriminate.
      * now apply Hgood.
Qed.

End expander_facts.

Section expander_claims.
Import expander samples.

(** The defaults of the table already pair "not an ending" with "no
    options": a node stored with nothing but its story reference. *)
Example default_node_is_open_without_options :
  exists o, insert StoryNode node_without_content [] = Ok (o, [o]) /\
            is_ending o = false /\ options_empty o = true.
Proof. eexists. repeat split. Qed.

(** C6 (counterexample).  Expanding a schema node that is not an ending
    and has no option list stores a node with no options whose
    [is_ending] is false. *)
Lemma dead_end_breaks_ending_consistency :
  exists o, snd (expand 1 dead_end true []) = [o] /\
            options_empty o = true /\ is_ending o = false.
Proof. eexists. repeat split. Qed.

(** C6 (amended).  Expansion keeps one half of ending consistency: if
    every stored node that is an ending has no options, the same holds
    after a story tree has been expanded into the table; a node with
    options is never an ending. *)
Theorem expand_keeps_endings_without_options
    (story_id : Z) (n : SchemaNode) (is_root : bool) (rows : list Row) :
  (forall o, In o rows -> is_ending o = true -> options_empty o = true) ->
  forall o, In o (snd (expand story_id n is_root rows)) ->
            is_ending o = true -> options_empty o = true.
Proof.
  intros H o Ho.
  destruct (expand_adds_well story_id n is_root rows)
    as (added & Hrows & _ & Hgood).
  rewrite Hrows in Ho. apply in_app_or in Ho.
  destruct Ho as [Ho|Ho]; [now apply H | now apply Hgood].
Qed.

Lemma expand_keeps_endings_without_options_witness :
  options_empty (new_node 2 1 "A" false true true) = true.
Proof.
  apply (expand_keeps_endings_without_options 1 one_branch true []).
  - intros o [].
  - simpl. right. left. reflexivity.
  - reflexivity.
Defined.

End expander_claims.

(* ===================================================================== *)
(** * Further properties of the routers and the models *)
(* ===================================================================== *)

(** ** Looking jobs and stories up *)

Section lookup_facts.
Import routers_job routers_story samples.

Lemma sql_eq_VStr_refl s : sql_eq (VStr s) (VStr s) = true.
Proof. simpl. apply String.eqb_refl. Qed.

Lemma sql_eq_VStr_ne s s' : s <> s' -> sql_eq (VStr s) (VStr s') = false.
Proof. intros H. simpl. now apply String.eqb_neq. Qed.

Lemma filter_eq_app col v rows rows' :
  filter_eq col v (rows ++ rows')
  = (filter_eq col v rows ++ filter_eq col v rows')%list.
Proof. unfold filter_eq. apply filter_app. Qed.

(** X1.  [get_job_status] answers with the first row, in table order,
    that carries the identifier, and leaves the store as it was. *)
Theorem get_job_status_first_match
    (db : DB) (job_id : string) (before after : list Row) (o : Row) :
  story_jobs db = (before ++ o :: after)%list ->
  (forall b, In b before -> column_value b "job_id" <> VStr job_id) ->
  column_value o "job_id" = VStr job_id ->
  get_job_status job_id db = (Ok o, db).
Proof.
  intros Hrows Hbefore Ho. unfold get_job_status, mbind, query.
  rewrite Hrows, filter_eq_app.
  rewrite (filter_eq_absent _ _ before);
    [| intros a; apply sql_eq_VStr | exact Hbefore].
  unfold filter_eq. cbn [app filter]. rewrite Ho, sql_eq_VStr_refl.
  reflexivity.
Qed.

Lemma get_job_status_first_match_witness :
  get_job_status "j2" db_two_jobs = (Ok second_job, db_two_jobs).
Proof.
  apply (get_job_status_first_match db_two_jobs "j2" [pending_job] []
           second_job).
  - reflexivity.
  - intros b [<-|[]]. discriminate.
  - reflexivity.
Defined.

(** X2.  [get_complete_story] never answers with a story view: whatever
    the store holds, the request ends in the [OverflowError] (an
    identifier the store cannot hold), in the 404 (no such story), in the
    500 "Story root node not found" (a story without nodes), or in the
    [AttributeError] on [is_winning_ending] (a story with nodes); the
    store is left as it was. *)
Theorem get_complete_story_never_a_view (story_id : Z) (db : DB) :
  exists e,
    get_complete_story story_id db = (Raise e, db) /\
    (e = OverflowError /\ int64 story_id = false \/
     int64 story_id = true /\
     (e = HTTPException 404 "Story not found" \/
      e = HTTPException 500 "Story root node not found" \/
      e = AttributeError "StoryNode" "is_winning_ending")).
Proof.
  unfold get_complete_story.
  destruct (int64 story_id).
  2: { exists OverflowError. split; [reflexivity | left; split; reflexivity]. }
  unfold mbind, query.
  destruct (first (filter_eq "id" (VInt story_id) (stories db)))
    as [story|].
  - destruct (filter_eq "story_id" (column_value story "id") (story_nodes db))
      as [|node rest] eqn:E.
    + exists RootNotFound. split.
      * now apply build_complete_story_tree_empty.
      * right. split; [reflexivity | right; left; reflexivity].
    + eexists. split.
      * apply build_complete_story_tree_nonempty. rewrite E. discriminate.
      * right. split; [reflexivity | right; right; reflexivity].
  - eexists. split; [reflexivity|].
    right. split; [reflexivity | left; reflexivity].
Qed.

(** X3.  A session identifier handed out by [get_session_id] is never
    empty and is kept when the client sends it back as its cookie. *)
Theorem get_session_id_stable (cookie : option string) (uuid uuid' : string) :
  uuid <> "" ->
  get_session_id cookie uuid <> "" /\
  get_session_id (Some (get_session_id cookie uuid)) uuid'
  = get_session_id cookie uuid.
Proof.
  intros Hu.
  assert (H : get_session_id cookie uuid <> "").
  { unfold get_session_id. destruct cookie as [s|]; [|exact Hu].
    destruct (String.eqb s "") eqn:E; [exact Hu|].
    now apply String.eqb_neq. }
  split; [exact H|].
  unfold get_session_id at 1.
  apply String.eqb_neq in H. now rewrite H.
Qed.

Lemma get_session_id_stable_witness :
  get_session_id (Some "") "u1" <> "" /\
  get_session_id (Some (get_session_id (Some "") "u1")) "u2"
  = get_session_id (Some "") "u1".
Proof.
  apply (get_session_id_stable (Some "") "u1" "u2").
  discriminate.
Defined.

End lookup_facts.

(** ** Creating a story and running its task *)

Section create_facts.
Import routers_job routers_story samples.

Lemma filter_update_first_other (p q : Row -> bool) new rows :
  q new = false ->
  (forall o, p o = true -> q o = false) ->
  filter q (update_first p new rows) = filter q rows.
Proof.
  intros Hnew Hpq. induction rows as [|o rows IH]; simpl; [reflexivity|].
  destruct (p o) eqn:E; simpl.
  - now rewrite Hnew, (Hpq o E).
  - now rewrite IH.
Qed.

(** Committing a job leaves the rows of every other identifier alone. *)
Lemma filter_other_after_commit job_id other job db :
  other <> job_id ->
  column_value job "job_id" = VStr job_id ->
  filter_eq "job_id" (VStr other) (story_jobs (commit_job job_id job db))
  = filter_eq "job_id" (VStr other) (story_jobs db).
Proof.
  intros Hne Hid. rewrite story_jobs_commit_job. unfold filter_eq.
  apply filter_update_first_other.
  - rewrite Hid. apply sql_eq_VStr_ne. congruence.
  - intros o Ho. apply sql_eq_VStr in Ho. rewrite Ho.
    apply sql_eq_VStr_ne. congruence.
Qed.

Lemma found_job_id job_id rows job :
  first (filter_eq "job_id" (VStr job_id) rows) = Some job ->
  column_value job "job_id" = VStr job_id.
Proof.
  intros H. unfold filter_eq in H. apply first_filter_Some in H.
  now apply sql_eq_VStr.
Qed.

(** X4.  A story created under a job identifier no row carries yet can be
    looked up at once: [get_job_status] answers with the job that
    [create_story] returned; that job is pending and carries the theme and
    the session of the request, the session being the one
    [get_session_id] computed from the cookie, which is also the value of
    the http-only cookie set on the response. *)
Theorem post_create_then_get_job_status
    (cookie : option string) (uuid_session uuid_job theme : string)
    (rq : Request) :
  (forall o, In o (story_jobs (request_db rq)) ->
             column_value o "job_id" <> VStr uuid_job) ->
  let created := post_create cookie uuid_session uuid_job theme rq in
  let session_id := get_session_id cookie uuid_session in
  get_job_status uuid_job (request_db (snd created))
  = (Ok (fst created), request_db (snd created)) /\
  column_value (fst created) "status" = VStr "pending" /\
  column_value (fst created) "theme" = VStr theme /\
  column_value (fst created) "session_id" = VStr session_id /\
  response_cookies (snd created)
  = (response_cookies rq ++
     [{| cookie_key := "session_id"; cookie_value := session_id;
         cookie_httponly := true |}])%list.
Proof.
  intros Hfresh created session_id. split; [|repeat split].
  apply (get_job_status_first_match _ uuid_job
           (story_jobs (request_db rq)) []).
  - reflexivity.
  - exact Hfresh.
  - reflexivity.
Qed.

Lemma post_create_then_get_job_status_witness :
  get_job_status "j9"
    (request_db (snd (post_create (Some "s") "u" "j9" "t" request_one_job)))
  = (Ok [("job_id", VStr "j9"); ("session_id", VStr "s");
         ("theme", VStr "t"); ("status", VStr "pending")],
     request_db (snd (post_create (Some "s") "u" "j9" "t" request_one_job))).
Proof.
  apply (post_create_then_get_job_status (Some "s") "u" "j9" "t"
           request_one_job).
  intros o [<-|[]]. discriminate.
Defined.

(** X5.  Creating a story changes nothing for the jobs already there: the
    answer of [get_job_status] for any other identifier is the same
    before and after, and the story and node tables are untouched. *)
Theorem create_story_keeps_other_jobs
    (theme session_id uuid other : string) (rq : Request) :
  other <> uuid ->
  let db' := request_db (snd (create_story theme session_id uuid rq)) in
  fst (get_job_status other db') = fst (get_job_status other (request_db rq))
  /\ stories db' = stories (request_db rq)
  /\ story_nodes db' = story_nodes (request_db rq).
Proof.
  intros Hne db'. split; [|split; reflexivity].
  unfold get_job_status, mbind, query. subst db'. cbn [create_story snd
    request_db story_jobs].
  rewrite filter_eq_app.
  match goal with
  | |- context [(_ ++ filter_eq "job_id" (VStr other) ?l)%list] =>
      assert (E : filter_eq "job_id" (VStr other) l = [])
  end.
  { unfold filter_eq. cbn [filter].
    change (column_value _ "job_id") with (VStr uuid).
    rewrite sql_eq_VStr_ne by congruence. reflexivity. }
  rewrite E, app_nil_r.
  destruct (first (filter_eq "job_id" (VStr other)
                     (story_jobs (request_db rq)))); reflexivity.
Qed.

Lemma create_story_keeps_other_jobs_witness :
  fst (get_job_status "j1"
         (request_db (snd (create_story "t" "s" "j9" request_one_job))))
  = Ok pending_job.
Proof.
  apply (proj1 (create_story_keeps_other_jobs "t" "s" "j9" "j1"
                  request_one_job ltac:(discriminate))).
Defined.

(** X6.  From request to result: after [create_story] under a fresh job
    identifier, running the task it scheduled calls the generator once,
    with the session and the theme of the request.  If the generator
    returns a story, [get_job_status] then answers with a job that is
    completed, refers to that story and still carries theme and session;
    if it raises an exception with the session usable, with a job that is
    failed and carries the message; if it raises out of a failed flush,
    with a job that is still [processing].  (The generator is taken to
    leave the job table alone.) *)
Theorem create_run_get
    (generate_story : DB -> string -> string -> GenOutcome) (now : Z)
    (theme session_id uuid : string) (rq : Request)
    (calls : list (string * string)) :
  (forall o, In o (story_jobs (request_db rq)) ->
             column_value o "job_id" <> VStr uuid) ->
  (forall db, story_jobs (outcome_db (generate_story db session_id theme))
              = story_jobs db) ->
  let created := create_story theme session_id uuid rq in
  let a := {| task_job_id := uuid; task_theme := theme;
              task_session_id := session_id |} in
  let run :=
    run_background_task generate_story now a
      {| store := request_db (snd created); generator_calls := calls |} in
  let db1 :=
    commit_job uuid (setattr (fst created) "status" (VStr "processing"))
      (request_db (snd created)) in
  background_tasks (snd created) = (background_tasks rq ++ [a])%list /\
  generator_calls (snd run) = (calls ++ [(session_id, theme)])%list /\
  match generate_story db1 session_id theme with
  | GenReturn _ story =>
      exists job,
        get_job_status uuid (store (snd run)) = (Ok job, store (snd run)) /\
        column_value job "status" = VStr "completed" /\
        column_value job "story_id" = column_value story "id" /\
        column_value job "completed_at" = VInt now /\
        column_value job "theme" = VStr theme /\
        column_value job "session_id" = VStr session_id
  | GenRaise _ e =>
      is_Exception e = true ->
      exists job,
        get_job_status uuid (store (snd run)) = (Ok job, store (snd run)) /\
        column_value job "status" = VStr "failed" /\
        column_value job "error" = VStr (exc_str e) /\
        column_value job "completed_at" = VInt now /\
        column_value job "theme" = VStr theme /\
        column_value job "session_id" = VStr session_id
  | GenFlushError _ e =>
      fst run = HandlerFailed /\
      exists job,
        get_job_status uuid (store (snd run)) = (Ok job, store (snd run)) /\
        column_value job "status" = VStr "processing" /\
        column_value job "error" = VNone /\
        column_value job "completed_at" = VNone /\
        column_value job "theme" = VStr theme /\
        column_value job "session_id" = VStr session_id
  end.
Proof.
  intros Hfresh Hgen created a run db1.
  set (job0 := fst created).
  set (db0 := request_db (snd created)).
  assert (H0 : first (filter_eq "job_id" (VStr uuid) (story_jobs db0))
               = Some job0).
  { subst db0 job0 created. cbn [create_story snd fst request_db story_jobs].
    rewrite filter_eq_app.
    rewrite (filter_eq_absent _ _ (story_jobs (request_db rq)));
      [| intros x; apply sql_eq_VStr | exact Hfresh].
    unfold filter_eq. cbn [app filter].
    change (column_value _ "job_id") with (VStr uuid).
    now rewrite sql_eq_VStr_refl. }
  assert (H1 : first (filter_eq "job_id" (VStr uuid) (story_jobs db1))
               = Some (setattr job0 "status" (VStr "processing"))).
  { apply (first_after_commit uuid job0); [exact H0|].
    now autorewrite with attrs. }
  split; [reflexivity|].
  subst run. unfold run_background_task. subst a.
  cbn [task_job_id task_theme task_session_id].
  unfold generate_story_task. cbn [store generator_calls]. fold db0.
  rewrite H0. cbv zeta. fold job0.
  change (commit_job uuid (setattr job0 "status" (VStr "processing")) db0)
    with db1.
  specialize (Hgen db1).
  destruct (generate_story db1 session_id theme)
    as [db2 story|db2 e|db2 e];
    cbn [outcome_db] in Hgen; rewrite <- Hgen in H1.
  - cbn [snd store generator_calls]. split; [reflexivity|].
    eexists. split.
    + unfold get_job_status, mbind, query.
      erewrite first_after_commit; [reflexivity | exact H1 |].
      now autorewrite with attrs.
    + now autorewrite with attrs.
  - destruct (is_Exception e); cbn [snd store generator_calls];
      (split; [reflexivity|]); [|discriminate].
    intros _. eexists. split.
    + unfold get_job_status, mbind, query, on_exception.
      erewrite first_after_commit; [reflexivity | exact H1 |].
      now autorewrite with attrs.
    + now autorewrite with attrs.
  - cbn [fst snd store generator_calls]. split; [reflexivity|].
    split; [reflexivity|].
    eexists. split.
    + unfold get_job_status, mbind, query. rewrite H1. reflexivity.
    + now autorewrite with attrs.
Qed.

Lemma create_run_get_witness :
  exists job,
    get_job_status "j9"
      (store (snd (run_background_task gen_ok 5
                     {| task_job_id := "j9"; task_theme := "t";
                        task_session_id := "s" |}
                     {| store := request_db
                                   (snd (create_story "t" "s" "j9"
                                           request_one_job));
                        generator_calls := [] |})))
    = (Ok job,
       store (snd (run_background_task gen_ok 5
                     {| task_job_id := "j9"; task_theme := "t";
                        task_session_id := "s" |}
                     {| store := request_db
                                   (snd (create_story "t" "s" "j9"
                                           request_one_job));
                        generator_calls := [] |}))) /\
    column_value job "status" = VStr "completed" /\
    column_value job "story_id" = VInt 1 /\
    column_value job "completed_at" = VInt 5 /\
    column_value job "theme" = VStr "t" /\
    column_value job "session_id" = VStr "s".
Proof.
  assert (Hfresh : forall o, In o (story_jobs (request_db request_one_job)) ->
                             column_value o "job_id" <> VStr "j9").
  { intros o [<-|[]]. discriminate. }
  exact (proj2 (proj2 (create_run_get gen_ok 5 "t" "s" "j9" request_one_job
                         [] Hfresh (fun db => eq_refl)))).
Defined.

End create_facts.

(** ** More on the background task *)

Section task_more.
Import routers_story samples.

(** X7.  The task writes to its own job only: the rows found under any
    other job identifier are the same after the run as before, whether
    the run completes, fails, is interrupted, or finds no job at all.
    (The generator is taken to leave the job table alone.) *)
Theorem generate_story_task_other_jobs
    (generate_story : DB -> string -> string -> GenOutcome) (now : Z)
    (job_id theme session_id other : string) (w : World) :
  other <> job_id ->
  (forall db, story_jobs (outcome_db (generate_story db session_id theme))
              = story_jobs db) ->
  filter_eq "job_id" (VStr other)
    (story_jobs (store (snd (generate_story_task generate_story now job_id
                               theme session_id w))))
  = filter_eq "job_id" (VStr other) (story_jobs (store w)).
Proof.
  intros Hne Hgen. unfold generate_story_task.
  destruct (first (filter_eq "job_id" (VStr job_id) (story_jobs (store w))))
    as [job|] eqn:E; [|reflexivity].
  apply found_job_id in E. cbv zeta.
  set (job1 := setattr job "status" (VStr "processing")).
  set (db1 := commit_job job_id job1 (store w)).
  assert (E1 : column_value job1 "job_id" = VStr job_id)
    by (subst job1; now autorewrite with attrs).
  assert (H1 : filter_eq "job_id" (VStr other) (story_jobs db1)
               = filter_eq "job_id" (VStr other) (story_jobs (store w)))
    by (now apply filter_other_after_commit).
  specialize (Hgen db1).
  destruct (generate_story db1 session_id theme)
    as [db2 story|db2 e|db2 e];
    cbn [outcome_db] in Hgen.
  - cbn [snd store]. rewrite filter_other_after_commit; [|exact Hne|].
    + unfold filter_eq in *. now rewrite Hgen.
    + now autorewrite with attrs.
  - destruct (is_Exception e); cbn [snd store].
    + unfold on_exception.
      rewrite filter_other_after_commit; [|exact Hne|].
      * unfold filter_eq in *. now rewrite Hgen.
      * now autorewrite with attrs.
    + unfold filter_eq in *. now rewrite Hgen.
  - cbn [snd store]. unfold filter_eq in *. now rewrite Hgen.
Qed.

Lemma generate_story_task_other_jobs_witness :
  filter_eq "job_id" (VStr "j2")
    (story_jobs (store (snd (generate_story_task gen_ok 5 "j1" "t" "s"
                               world_two_jobs))))
  = [second_job].
Proof.
  apply (generate_story_task_other_jobs gen_ok 5 "j1" "t" "s" "j2"
           world_two_jobs).
  - discriminate.
  - intros db. reflexivity.
Defined.

(** X8.  [except Exception] does not catch everything: when the generator
    is cut short by an exception outside [Exception], the task hands it
    on to its caller and the job is left in status [processing], with no
    completion time written.  (The generator is taken to leave the job
    table alone.) *)
Theorem generate_story_task_interrupted
    (generate_story : DB -> string -> string -> GenOutcome) (now : Z)
    (job_id theme session_id : string) (w : World) (job : Row)
    (db2 : DB) (e : PyExc) :
  first (filter_eq "job_id" (VStr job_id) (story_jobs (store w))) = Some job ->
  generate_story
    (commit_job job_id (setattr job "status" (VStr "processing")) (store w))
    session_id theme = GenRaise db2 e ->
  is_Exception e = false ->
  story_jobs db2
  = story_jobs
      (commit_job job_id (setattr job "status" (VStr "processing"))
         (store w)) ->
  let run := generate_story_task generate_story now job_id theme session_id w in
  fst run = Propagated e /\
  exists job',
    first (filter_eq "job_id" (VStr job_id) (story_jobs (store (snd run))))
    = Some job' /\
    column_value job' "status" = VStr "processing" /\
    column_value job' "completed_at" = column_value job "completed_at" /\
    column_value job' "error" = column_value job "error".
Proof.
  intros H Hgen He Hjobs run. subst run. unfold generate_story_task.
  rewrite H. cbv zeta. rewrite Hgen, He. cbn [fst snd store].
  split; [reflexivity|].
  exists (setattr job "status" (VStr "processing")). split.
  - rewrite Hjobs. apply (first_after_commit job_id job); [exact H|].
    now autorewrite with attrs.
  - now autorewrite with attrs.
Qed.

Lemma generate_story_task_interrupted_witness :
  fst (generate_story_task gen_interrupted 5 "j1" "t" "s" world_one_job)
  = Propagated {| is_Exception := false; exc_str := "KeyboardInterrupt" |}
  /\
  exists job',
    first (filter_eq "job_id" (VStr "j1")
             (story_jobs (store (snd (generate_story_task gen_interrupted 5
                                        "j1" "t" "s" world_one_job)))))
    = Some job' /\
    column_value job' "status" = VStr "processing" /\
    column_value job' "completed_at" = VNone /\
    column_value job' "error" = VNone.
Proof.
  exact (generate_story_task_interrupted gen_interrupted 5 "j1" "t" "s"
           world_one_job pending_job _ _ eq_refl eq_refl eq_refl eq_refl).
Defined.

End task_more.

(** ** More on validation *)

Section schema_more.
Import core_models samples.

Lemma mapM_Ok_Forall2 {A B : Type} (f : A -> result B) xs ys :
  mapM f xs = Ok ys -> Forall2 (fun x y => f x = Ok y) xs ys.
Proof.
  revert ys. induction xs as [|x xs IH]; intros ys; cbn [mapM].
  - intros [= <-]. constructor.
  - destruct (f x) as [y|] eqn:Ex; cbn [bind]; [|discriminate].
    destruct (mapM f xs) as [ys'|]; cbn [bind]; [|discriminate].
    intros [= <-]. constructor; [exact Ex | now apply IH].
Qed.

Lemma validate_options_Some P kv os :
  validate_options P kv = Ok (Some os) ->
  exists xs,
    dict_get "options" kv = Some (VList xs) /\
    Forall2 (fun x o => StoryOptionLLM_validate P x = Ok o) xs os.
Proof.
  unfold validate_options.
  destruct (dict_get "options" kv) as [v|].
  - destruct v; try discriminate.
    destruct (mapM (StoryOptionLLM_validate P) xs) as [os'|] eqn:E;
      cbn [bind]; [|discriminate].
    intros [= <-]. exists xs. split; [reflexivity|].
    now apply mapM_Ok_Forall2.
  - destruct (optional_is_required P); discriminate.
Qed.

(** X9.  Whatever an accepted response contains at the levels the schema
    covers has been validated: the root node validates on its own, and
    when the accepted root has options, the input listed exactly as many
    items, each validating as an option, in the same order.  This holds
    for every way pydantic may convert scalars. *)
Theorem accepted_response_parts
    (P : Pydantic) (v : Value) (r : StoryLLMResponse) :
  StoryLLMResponse_validate P v = Ok r ->
  exists kv root nkv,
    v = VDict kv /\
    dict_get "rootNode" kv = Some root /\
    root = VDict nkv /\
    StoryNodeLLM_validate P root = Ok (rootNode r) /\
    forall os, options (rootNode r) = Some os ->
      exists xs,
        dict_get "options" nkv = Some (VList xs) /\
        Forall2 (fun x o => StoryOptionLLM_validate P x = Ok o) xs os.
Proof.
  intros H. unfold StoryLLMResponse_validate in H.
  destruct v as [| | | | |kv]; try discriminate.
  destruct (required (to_str P) kv "title") as [t|]; cbn [bind] in H;
    [|discriminate].
  destruct (dict_get "rootNode" kv) as [root|] eqn:Eroot; [|discriminate].
  destruct (StoryNodeLLM_validate P root) as [n|] eqn:En; cbn [bind] in H;
    [|discriminate].
  injection H as <-. cbn [rootNode].
  pose proof En as En'. unfold StoryNodeLLM_validate in En'.
  destruct root as [| | | | |nkv]; try discriminate.
  exists kv, (VDict nkv), nkv. repeat split; try assumption.
  intros os Hos.
  destruct (required (to_str P) nkv "content"); cbn [bind] in En';
    [|discriminate].
  destruct (required (to_bool P) nkv "isEnding"); cbn [bind] in En';
    [|discriminate].
  destruct (required (to_bool P) nkv "isWinningEnding"); cbn [bind] in En';
    [|discriminate].
  destruct (validate_options P nkv) as [o|] eqn:Eo; cbn [bind] in En';
    [|discriminate].
  injection En' as <-. cbn [options] in Hos. subst o.
  now apply validate_options_Some.
Qed.

Lemma accepted_response_parts_witness :
  exists xs,
    dict_get "options" open_node = Some (VList xs) /\
    Forall2 (fun x o => StoryOptionLLM_validate strict x = Ok o) xs
      [{| text := "go"; nextNode := [] |}].
Proof.
  destruct (accepted_response_parts strict shallow_response
              {| title := "T";
                 rootNode := {| content := "C"; isEnding := false;
                                isWinningEnding := false;
                                options := Some [{| text := "go";
                                                    nextNode := [] |}] |} |}
              eq_refl)
    as (kv & root & nkv & Hv & Hroot & Hn & _ & Hos).
  unfold shallow_response in Hv. injection Hv as <-.
  simpl in Hroot. injection Hroot as <-. injection Hn as <-.
  apply Hos. reflexivity.
Defined.

(** X10.  Every field declared without a default is required, however
    pydantic converts scalars: a response without [title] or [rootNode],
    a node without [content], [isEnding] or [isWinningEnding], and an
    option without [text] or [nextNode] are all rejected. *)
Theorem missing_field_rejected (P : Pydantic) (kv : list (string * Value)) :
  (dict_get "title" kv = None \/ dict_get "rootNode" kv = None ->
   StoryLLMResponse_validate P (VDict kv) = Raise ValidationError) /\
  (dict_get "content" kv = None \/ dict_get "isEnding" kv = None \/
   dict_get "isWinningEnding" kv = None ->
   StoryNodeLLM_validate P (VDict kv) = Raise ValidationError) /\
  (dict_get "text" kv = None \/ dict_get "nextNode" kv = None ->
   StoryOptionLLM_validate P (VDict kv) = Raise ValidationError).
Proof.
  split; [|split].
  - intros [H|H]; unfold StoryLLMResponse_validate, required; rewrite H.
    + reflexivity.
    + destruct (dict_get "title" kv) as [x|]; [|reflexivity].
      destruct (to_str P x); reflexivity.
  - intros [H|[H|H]]; unfold StoryNodeLLM_validate, required; rewrite H.
    + reflexivity.
    + destruct (dict_get "content" kv) as [x|]; [|reflexivity].
      destruct (to_str P x); reflexivity.
    + destruct (dict_get "content" kv) as [x|]; [|reflexivity].
      destruct (to_str P x); [|reflexivity].
      destruct (dict_get "isEnding" kv) as [y|]; [|reflexivity].
      destruct (to_bool P y); reflexivity.
  - intros [H|H]; unfold StoryOptionLLM_validate, required; rewrite H.
    + reflexivity.
    + destruct (dict_get "text" kv) as [x|]; [|reflexivity].
      destruct (to_str P x); reflexivity.
Qed.

Lemma missing_field_rejected_witness :
  StoryNodeLLM_validate strict
    (VDict [("content", VStr "C"); ("isEnding", VBool true)])
  = Raise ValidationError.
Proof.
  apply (proj1 (proj2 (missing_field_rejected strict
                         [("content", VStr "C"); ("isEnding", VBool true)]))).
  right. right. reflexivity.
Defined.

End schema_more.

(** ** More on the tables of models/story.py *)

Section table_more.
Import samples.

(** Induction on values, the nested lists included. *)
Lemma Value_ind (Q : Value -> Prop) :
  Q VNone ->
  (forall b, Q (VBool b)) ->
  (forall n, Q (VInt n)) ->
  (forall s, Q (VStr s)) ->
  (forall xs, Forall Q xs -> Q (VList xs)) ->
  (forall kv, Forall (fun p => Q (snd p)) kv -> Q (VDict kv)) ->
  forall v, Q v.
Proof.
  intros HN HB HI HS HL HD. fix F 1. intros [| b | n | s | xs | kv].
  - exact HN.
  - apply HB.
  - apply HI.
  - apply HS.
  - apply HL. induction xs as [|x xs IH]; constructor; [apply F | exact IH].
  - apply HD. induction kv as [|[k x] kv IH]; constructor;
      [apply F | exact IH].
Qed.

Lemma Value_eqb_refl v : Value_eqb v v = true.
Proof.
  induction v as [| b | n | s | xs IH | kv IH] using Value_ind;
    cbn [Value_eqb].
  - reflexivity.
  - now destruct b.
  - apply Z.eqb_refl.
  - apply String.eqb_refl.
  - induction IH as [|x xs Hx _ IHxs]; [reflexivity|].
    now rewrite Hx, IHxs.
  - induction IH as [|[k x] kv Hx _ IHkv]; [reflexivity|].
    cbn [snd] in Hx. now rewrite String.eqb_refl, Hx, IHkv.
Qed.

Lemma key_not_taken k rows :
  key_taken k rows = false -> forall r, In r rows -> pk_of r <> k.
Proof.
  unfold key_taken. intros H r Hr Hk.
  assert (E : existsb (fun r => Value_eqb (pk_of r) k) rows = true).
  { apply existsb_exists. exists r. split; [exact Hr|].
    rewrite Hk. apply Value_eqb_refl. }
  congruence.
Qed.

Lemma find_name_absent a cols :
  ~ In a (map name cols) ->
  find (fun c => String.eqb a (name c)) cols = None.
Proof.
  induction cols as [|c cols IH]; simpl; [reflexivity|].
  intros H. destruct (String.eqb a (name c)) eqn:E.
  - apply String.eqb_eq in E. exfalso. apply H. now left.
  - apply IH. intros Hin. apply H. now right.
Qed.

Lemma left_out_dict_set c a d o :
  name c <> a -> left_out c (dict_set a d o) = left_out c o.
Proof.
  intros H. unfold left_out. rewrite dict_get_set_ne by congruence.
  reflexivity.
Qed.

(** What the defaults do to one attribute: it takes the default of its
    column when the INSERT leaves it out, and keeps its value otherwise. *)
Lemma dict_get_apply_defaults t o a :
  NoDup (map name (columns t)) ->
  dict_get a (apply_defaults t o)
  = match find (fun c => String.eqb a (name c)) (columns t) with
    | Some c =>
        match default c with
        | Some d => if left_out c o then Some d else dict_get a o
        | None => dict_get a o
        end
    | None => dict_get a o
    end.
Proof.
  unfold apply_defaults. revert o.
  induction (columns t) as [|c cols IH]; intros o Hnd; simpl; [reflexivity|].
  inversion Hnd as [|? ? Hnotin Hnd']; subst.
  match goal with
  | |- context [fold_left _ cols ?x] => set (acc := x)
  end.
  rewrite IH by exact Hnd'.
  destruct (String.eqb a (name c)) eqn:E.
  - apply String.eqb_eq in E. subst a.
    rewrite (find_name_absent _ _ Hnotin). subst acc.
    destruct (default c) as [d|]; [|reflexivity].
    destruct (left_out c o); [apply dict_get_set_eq | reflexivity].
  - apply String.eqb_neq in E.
    assert (Hget : dict_get a acc = dict_get a o).
    { subst acc. destruct (default c) as [d|]; [|reflexivity].
      destruct (left_out c o); [|reflexivity].
      apply dict_get_set_ne. congruence. }
    rewrite Hget.
    destruct (find (fun c0 => String.eqb a (name c0)) cols) as [c'|] eqn:Ef;
      [|reflexivity].
    apply find_some in Ef. destruct Ef as [_ Ec'].
    apply String.eqb_eq in Ec'.
    destruct (default c') as [d'|]; [|reflexivity].
    assert (Hl : left_out c' acc = left_out c' o).
    { subst acc. destruct (default c) as [d|]; [|reflexivity].
      destruct (left_out c o); [|reflexivity].
      apply left_out_dict_set. congruence. }
    now rewrite Hl.
Qed.

Lemma StoryNode_names_NoDup : NoDup (map name (columns StoryNode)).
Proof.
  simpl. repeat constructor; simpl; intuition discriminate.
Qed.

(** A stored node, taken apart. *)
Lemma insert_StoryNode_Ok_inv o rows o' rows' :
  insert StoryNode o rows = Ok (o', rows') ->
  o' = keyed (apply_defaults StoryNode o) rows /\
  rows' = (rows ++ [o'])%list /\
  key_taken (pk_of o') rows = false.
Proof.
  unfold insert. cbv zeta.
  destruct (null_violation StoryNode _); [discriminate|].
  destruct (key_taken _ rows) eqn:E; [discriminate|].
  intros [= <- <-]. auto.
Qed.

(** X11.  A stored node, read back: a key the node brought is kept, and
    in any case the key is that of no other row; every other attribute
    given a value other than [None] keeps it; [is_root], [is_ending] and
    [is_winning] read [False] when they were left unset or [None], and
    [options] reads as the empty list when it was left unset. *)
Theorem insert_StoryNode_defaults (o o' : Row) (rows rows' : list Row) :
  insert StoryNode o rows = Ok (o', rows') ->
  rows' = (rows ++ [o'])%list /\
  (forall k, column_value o "id" = VInt k -> pk_of o' = VInt k) /\
  (forall r, In r rows -> pk_of r <> pk_of o') /\
  (forall a v, a <> "id" -> v <> VNone -> dict_get a o = Some v ->
               column_value o' a = v) /\
  (forall a, In a ["is_root"; "is_ending"; "is_winning"] ->
             column_value o a = VNone -> column_value o' a = VBool false) /\
  (dict_get "options" o = None -> column_value o' "options" = VList []).
Proof.
  intros H. apply insert_StoryNode_Ok_inv in H.
  destruct H as (-> & -> & Hfree).
  split; [reflexivity|]. split; [|split; [|split; [|split]]].
  - intros k Hk. unfold keyed, pk_of.
    rewrite StoryNode_id_after_defaults, Hk.
    now rewrite StoryNode_id_after_defaults.
  - now apply key_not_taken.
  - intros a v Ha Hv Hget. rewrite keyed_row_other by exact Ha.
    unfold column_value. now rewrite (apply_defaults_keeps _ _ _ _ Hget Hv).
  - intros a Ha Hnone.
    assert (Hid : a <> "id")
      by (simpl in Ha; destruct Ha as [<-|[<-|[<-|[]]]]; discriminate).
    rewrite keyed_row_other by exact Hid.
    unfold column_value in *.
    rewrite (dict_get_apply_defaults _ _ _ StoryNode_names_NoDup).
    simpl in Ha.
    destruct Ha as [<-|[<-|[<-|[]]]]; cbn [columns StoryNode find name
      String.eqb Ascii.eqb Bool.eqb default]; unfold left_out;
      cbn [name coltype];
      (destruct (dict_get _ o) as [[]|]; try discriminate; reflexivity).
  - intros Hnone. rewrite keyed_row_other by discriminate.
    unfold column_value.
    rewrite (dict_get_apply_defaults _ _ _ StoryNode_names_NoDup).
    cbn [columns StoryNode find name String.eqb Ascii.eqb Bool.eqb default].
    unfold left_out. cbn [name]. now rewrite Hnone.
Qed.

Lemma insert_StoryNode_defaults_witness :
  pk_of [("id", VInt 7); ("story_id", VInt 1); ("is_root", VBool false);
         ("is_ending", VBool false); ("is_winning", VBool false);
         ("options", VList [])] = VInt 7 /\
  column_value
    [("id", VInt 7); ("story_id", VInt 1); ("is_root", VBool false);
     ("is_ending", VBool false); ("is_winning", VBool false);
     ("options", VList [])] "is_ending" = VBool false.
Proof.
  destruct (insert_StoryNode_defaults
              [("id", VInt 7); ("story_id", VInt 1); ("is_root", VNone)]
              [("id", VInt 7); ("story_id", VInt 1); ("is_root", VBool false);
               ("is_ending", VBool false); ("is_winning", VBool false);
               ("options", VList [])]
              [expander.new_node 1 1 "A" true true true]
              ([expander.new_node 1 1 "A" true true true] ++
               [[("id", VInt 7); ("story_id", VInt 1);
                 ("is_root", VBool false); ("is_ending", VBool false);
                 ("is_winning", VBool false); ("options", VList [])]])
              eq_refl)
    as (_ & Hkey & _ & _ & Hflags & _).
  split.
  - apply (Hkey 7). reflexivity.
  - apply Hflags; [right; left; reflexivity | reflexivity].
Defined.



Lemma NoDup_snoc {A : Type} (l : list A) (x : A) :
  NoDup l -> ~ In x l -> NoDup (l ++ [x]).
Proof.
  induction l as [|y l IH]; simpl; intros Hnd Hx.
  - constructor; [intros [] | constructor].
  - inversion Hnd as [|? ? Hy Hl]; subst. constructor.
    + intros Hin. apply in_app_or in Hin. destruct Hin as [Hin|[<-|[]]].
      * now apply Hy.
      * apply Hx. now left.
    + apply IH; [exact Hl|]. intros Hin. apply Hx. now right.
Qed.



End table_more.
